(** * papercoverterieee: the text pipeline of [app.py]

    A shallow embedding of the pure text-processing functions of [app.py]
    (fallback typesetter, metadata extractor, author block parser, body
    sanitizer, render-context construction) together with the fragment of
    Python's [str] and [re] semantics they rely on.

    Python strings are sequences of Unicode code points; they are modelled as
    lists of code points ([list N]).  Regular expressions are kept as syntax
    trees and run by a backtracking matcher that explores alternatives in the
    order of Python's [re] module. *)

From Stdlib Require Import String Ascii DecimalString.
From Stdlib Require Import List NArith ZArith Lia Bool Arith.
Import ListNotations.
Local Open Scope N_scope.
Local Open Scope list_scope.

Set Implicit Arguments.

(** ** Python strings *)

Definition pystr := list N.

(** A literal: the code points of an ASCII string constant. *)
Definition py (s : string) : pystr :=
  List.map N_of_ascii (list_ascii_of_string s).

Definition NL : N := 10.
Definition BSL : N := 92.

Fixpoint pystr_eqb (a b : pystr) : bool :=
  match a, b with
  | [], [] => true
  | x :: a', y :: b' => (x =? y) && pystr_eqb a' b'
  | _, _ => false
  end.

(** Truthiness of a string: non-empty. *)
Definition truthy (s : pystr) : bool :=
  match s with [] => false | _ :: _ => true end.

(** [x or d] on strings. *)
Definition py_or (s d : pystr) : pystr := if truthy s then s else d.

(** [c in (a, b, ...)] for code points. *)
Definition mem (c : N) (l : list N) : bool := existsb (N.eqb c) l.

(** [str.isspace] on one code point; also the regex class [\s] on [str]
    patterns. *)
Definition isspace (c : N) : bool :=
  ((9 <=? c) && (c <=? 13)) || ((28 <=? c) && (c <=? 32))
  || mem c [133; 160; 5760; 8232; 8233; 8239; 8287; 12288]
  || ((8192 <=? c) && (c <=? 8202)).

(** Line boundaries of [str.splitlines]. *)
Definition is_linebreak (c : N) : bool :=
  mem c [10; 11; 12; 13; 28; 29; 30; 133; 8232; 8233].

(** [s.startswith(p)], returning the remainder [s[len(p):]] on success. *)
Fixpoint strip_prefix (p s : pystr) : option pystr :=
  match p with
  | [] => Some s
  | c :: p' =>
      match s with
      | [] => None
      | d :: s' => if c =? d then strip_prefix p' s' else None
      end
  end.

Definition startswith (s p : pystr) : bool :=
  match strip_prefix p s with Some _ => true | None => false end.

(** [s.lstrip(chars)], [s.rstrip(chars)], [s.strip(chars)] for a set of code
    points given as a predicate. *)
Fixpoint lstrip_by (p : N -> bool) (s : pystr) : pystr :=
  match s with
  | [] => []
  | c :: s' => if p c then lstrip_by p s' else s
  end.

Definition rstrip_by (p : N -> bool) (s : pystr) : pystr :=
  rev (lstrip_by p (rev s)).

Definition strip_by (p : N -> bool) (s : pystr) : pystr :=
  rstrip_by p (lstrip_by p s).

(** [s.strip()] *)
Definition strip (s : pystr) : pystr := strip_by isspace s.

(** [sep.join(parts)] *)
Fixpoint join (sep : pystr) (parts : list pystr) : pystr :=
  match parts with
  | [] => []
  | [x] => x
  | x :: rest => x ++ sep ++ join sep rest
  end.

(** [s.splitlines()]: [cur] is the current line, reversed.  A final line
    without a terminator is kept; a terminator at the very end does not open
    an empty last line; [\r\n] is one boundary. *)
Fixpoint splitlines_from (cur : pystr) (s : pystr) : list pystr :=
  match s with
  | [] => match cur with [] => [] | _ :: _ => [rev cur] end
  | c :: s' =>
      if c =? 13 then
        match s' with
        | d :: s'' =>
            if d =? 10 then rev cur :: splitlines_from [] s''
            else rev cur :: splitlines_from [] s'
        | [] => rev cur :: splitlines_from [] s'
        end
      else if is_linebreak c then rev cur :: splitlines_from [] s'
      else splitlines_from (c :: cur) s'
  end.

Definition splitlines (s : pystr) : list pystr := splitlines_from [] s.

(** [s.split(",")[0]]: the text before the first occurrence of [c]. *)
Fixpoint before_first (c : N) (s : pystr) : pystr :=
  match s with
  | [] => []
  | d :: s' => if d =? c then [] else d :: before_first c s'
  end.

(** ** Regular expressions

    The fragment of Python's [re] syntax that occurs in [app.py].  Every
    quantifier of the program is applied to a single-character atom, so
    [Rep] carries a character predicate. *)

Inductive regex : Type :=
| Eps : regex                                   (* empty pattern *)
| Chr : (N -> bool) -> regex                    (* one code point: literal, class, [\s], [.] *)
| Cat : regex -> regex -> regex                 (* concatenation *)
| Alt : regex -> regex -> regex                 (* a|b, left alternative first *)
| Rep : bool -> nat -> option nat -> (N -> bool) -> regex
                                                (* x{lo,hi}; greedy or lazy *)
| Eol : regex                                   (* $ without MULTILINE *)
| Ahead : regex -> regex.                       (* (?=a) *)

(** [$]: at the end of the string, or just before a newline that ends it. *)
Definition at_eol (s : pystr) : bool :=
  match s with
  | [] => true
  | [c] => c =? NL
  | _ => false
  end.

Definition hi_allows (hi : option nat) : bool :=
  match hi with Some O => false | _ => true end.

Definition hi_pred (hi : option nat) : option nat :=
  match hi with Some n => Some (pred n) | None => None end.

(** Repetition of a one-character atom with continuation [k].  Greedy: one
    more character is tried first and the repetition stops when the rest of
    the pattern fails after it; lazy: stopping is tried first. *)
Fixpoint rep (R : Type) (greedy : bool) (p : N -> bool) (lo : nat)
    (hi : option nat) (s : pystr) (k : pystr -> option R) {struct s}
    : option R :=
  match s with
  | c :: s' =>
      if p c && hi_allows hi then
        if greedy then
          match rep greedy p (pred lo) (hi_pred hi) s' k with
          | Some r => Some r
          | None => match lo with O => k s | S _ => None end
          end
        else
          match (match lo with O => k s | S _ => None end) with
          | Some r => Some r
          | None => rep greedy p (pred lo) (hi_pred hi) s' k
          end
      else match lo with O => k s | S _ => None end
  | [] => match lo with O => k s | S _ => None end
  end.

(** The backtracking matcher, in continuation-passing style: [exec r s k]
    matches [r] at the front of [s] and hands the remaining input to [k]; a
    failure of [k] makes the matcher try its next choice. *)
Fixpoint exec (r : regex) (R : Type) (s : pystr) (k : pystr -> option R)
    {struct r} : option R :=
  match r with
  | Eps => k s
  | Chr p =>
      match s with
      | c :: s' => if p c then k s' else None
      | [] => None
      end
  | Cat a b => exec a s (fun s' => exec b s' k)
  | Alt a b =>
      match exec a s k with
      | Some x => Some x
      | None => exec b s k
      end
  | Rep g lo hi p => rep g p lo hi s k
  | Eol => if at_eol s then k s else None
  | Ahead a =>
      match exec a s (fun _ => Some tt) with
      | Some _ => k s
      | None => None
      end
  end.

(** [pattern.match(s)]: the input left after the match.  [re.match] anchors
    at position 0, so a leading [^] of a pattern adds nothing and is not
    represented. *)
Definition re_match (r : regex) (s : pystr) : option pystr :=
  exec r s (fun rest => Some rest).

(** The text consumed between two positions of the same string. *)
Definition consumed (from rest : pystr) : pystr :=
  firstn (length from - length rest) from.

(** [re.search(r, s)]: the leftmost match, as (matched text, text after). *)
Fixpoint re_search (r : regex) (s : pystr) : option (pystr * pystr) :=
  match re_match r s with
  | Some rest => Some (consumed s rest, rest)
  | None =>
      match s with
      | [] => None
      | _ :: s' => re_search r s'
      end
  end.

(** [re.sub(r, "", s)].  [skip] counts the characters of the current match
    still to be dropped.  An empty match is replaced by the empty string,
    which leaves the text as it is. *)
Fixpoint sub_from (r : regex) (skip : nat) (s : pystr) : pystr :=
  match s with
  | [] => []
  | c :: s' =>
      match skip with
      | S n => sub_from r n s'
      | O =>
          match re_match r s with
          | Some rest =>
              match (length s - length rest)%nat with
              | O => c :: sub_from r O s'
              | S n => sub_from r n s'
              end
          | None => c :: sub_from r O s'
          end
      end
  end.

Definition re_sub_empty (r : regex) (s : pystr) : pystr := sub_from r 0 s.

(** [re.split(r, s)] for a pattern without groups.  [cur] is the current
    piece, reversed.  The separators of the program never match the empty
    string; an empty match is passed over. *)
Fixpoint split_from (r : regex) (skip : nat) (cur : pystr) (s : pystr)
    : list pystr :=
  match s with
  | [] => [rev cur]
  | c :: s' =>
      match skip with
      | S n => split_from r n cur s'
      | O =>
          match re_match r s with
          | Some rest =>
              match (length s - length rest)%nat with
              | O => split_from r O (c :: cur) s'
              | S n => rev cur :: split_from r n [] s'
              end
          | None => split_from r O (c :: cur) s'
          end
      end
  end.

Definition re_split (r : regex) (s : pystr) : list pystr :=
  split_from r 0 [] s.

(** Pattern builders. *)

Definition is_chr (c : N) : N -> bool := fun x => x =? c.
Definition any_chr : N -> bool := fun _ => true.          (* [.] with DOTALL *)
Definition not_newline : N -> bool := fun x => negb (x =? NL). (* [.] *)

(** A literal word. *)
Fixpoint lit (w : pystr) : regex :=
  match w with
  | [] => Eps
  | c :: w' => Cat (Chr (is_chr c)) (lit w')
  end.

Definition star (p : N -> bool) : regex := Rep true 0 None p.        (* x*  *)
Definition plus (p : N -> bool) : regex := Rep true 1 None p.        (* x+  *)
Definition opt (p : N -> bool) : regex := Rep true 0 (Some 1%nat) p. (* x?  *)
Definition star_lazy (p : N -> bool) : regex := Rep false 0 None p.  (* x*? *)

(** A code point written as a character. *)
Definition ch (a : ascii) : N := N_of_ascii a.

(** *** Case-insensitive matching ([re.IGNORECASE] on [str] patterns)

    A cased pattern letter is compiled to its lower case [lo] and matches a
    code point [x] when the lower case of [x] is [lo] or one of the letters
    that share [lo]'s upper case (dotless i with i, long s with s).

    [tolower] is Python's simple lower-casing on the code points that can
    matter here: together with the ASCII and Latin-1 capitals, U+0130 (whose
    lower case is i) and U+212A (Kelvin sign, whose lower case is k) are the
    only code points whose lower case is a letter of one of the patterns
    below. *)
Definition tolower (c : N) : N :=
  if (65 <=? c) && (c <=? 90) then c + 32
  else if (192 <=? c) && (c <=? 222) && negb (c =? 215) then c + 32
  else if c =? 304 then 105
  else if c =? 8490 then 107
  else c.

Definition case_fixes (lo : N) : list N :=
  if lo =? 105 then [305] else if lo =? 115 then [383] else [].

Definition chr_i (c : N) : N -> bool :=
  fun x => mem (tolower x) (tolower c :: case_fixes (tolower c)).

Fixpoint lit_i (w : pystr) : regex :=
  match w with
  | [] => Eps
  | c :: w' => Cat (Chr (chr_i c)) (lit_i w')
  end.

(** A character class under IGNORECASE. *)
Definition class_i (l : list N) : N -> bool :=
  fun x => mem (tolower x) l.

(** [re.match(before + "(" + inside + ")" + after, s).group(...)] for the
    group around [inside]: the continuation of [before] records where the
    group starts and the one of [inside] where it ends, so the group is the
    one of the first successful path of the backtracking search. *)
Definition match_group (before inside after : regex) (s : pystr)
    : option pystr :=
  exec before s (fun s1 =>
    exec inside s1 (fun s2 =>
      exec after s2 (fun _ => Some (consumed s1 s2)))).

(** ** Fallback Typesetter: [naive_md_to_latex] *)

(** One pass of the loop body: the line appended to [out]. *)
Definition naive_line (line : pystr) : pystr :=
  if startswith line (py "# ") then
    py "\section{" ++ skipn 2 line ++ py "}"
  else if startswith line (py "## ") then
    py "\subsection{" ++ skipn 3 line ++ py "}"
  else if startswith line (py "### ") then
    py "\subsubsection{" ++ skipn 4 line ++ py "}"
  else line.

(** The loop [for line in text.splitlines(): out.append(...)]. *)
Fixpoint naive_loop (out : list pystr) (lines : list pystr) : list pystr :=
  match lines with
  | [] => out
  | line :: rest => naive_loop (out ++ [naive_line line]) rest
  end.

Definition naive_md_to_latex (text : pystr) : pystr :=
  join [NL] (naive_loop [] (splitlines text)).

(** ** External Converter Adapter: [find_pandoc], [markdown_to_latex] *)

(** What a call can do besides returning: raise. *)
Inductive outcome (A : Type) : Type :=
| Returned : A -> outcome A
| Raised : outcome A.
Arguments Raised {A}.

(** [subprocess.run] in text mode: the call raised (the file could not be
    executed, or the input or an output stream could not be encoded or
    decoded), or the process ran to completion and the call returned its
    return code and its two output streams. *)
Inductive proc_result : Type :=
| Run_raised : proc_result
| Completed : Z -> pystr -> pystr -> proc_result.

(** An author record, as built by [split_authors_blocks] and by
    [generate]. *)
Record author : Type := Build_author {
  name : pystr;
  affiliation : pystr;
  organization : pystr;
  city_country : pystr;
  email_or_orcid : pystr
}.

(** The dictionary handed to the template. *)
Record render_context : Type := Build_context {
  ctx_title : pystr;
  ctx_author_blocks : list author;
  ctx_abstract : pystr;
  ctx_keywords : list pystr;
  ctx_body_latex : pystr;
  ctx_bibfile_base : pystr
}.

(** The surroundings of the process: environment variables, the file system,
    the executable search path, the platform, process execution, and the
    manuscript template with its rendering engine ([render_ieee_latex]: the
    template file is read, compiled and rendered; each step can raise). *)
Record host : Type := Build_host {
  environ_get : pystr -> option pystr;       (* os.environ.get(key) *)
  path_exists : pystr -> bool;               (* Path(p).exists() *)
  path_str : pystr -> pystr;                 (* str(Path(p)) *)
  which : pystr -> option pystr;             (* shutil.which(cmd) *)
  os_is_nt : bool;                           (* os.name == "nt" *)
  expandvars : pystr -> pystr;               (* os.path.expandvars *)
  expanduser : pystr -> pystr;               (* os.path.expanduser *)
  run_process : list pystr -> pystr -> proc_result;
                                             (* subprocess.run(cmd, input=...) *)
  render_template : render_context -> outcome pystr
                                             (* render_ieee_latex(context) *)
}.

(** [for key in (...): p = os.environ.get(key); if p and Path(p).exists():
    return str(Path(p))] *)
Fixpoint first_env (h : host) (keys : list pystr) : option pystr :=
  match keys with
  | [] => None
  | key :: rest =>
      match environ_get h key with
      | Some p =>
          if truthy p && path_exists h p then Some (path_str h p)
          else first_env h rest
      | None => first_env h rest
      end
  end.

(** [for c in candidates: if c and Path(c).exists(): return c] *)
Fixpoint first_existing (h : host) (candidates : list pystr) : option pystr :=
  match candidates with
  | [] => None
  | c :: rest =>
      if truthy c && path_exists h c then Some c else first_existing h rest
  end.

Definition pandoc_candidates (h : host) : list pystr :=
  if os_is_nt h then
    [ py "C:\Program Files\Pandoc\pandoc.exe";
      expandvars h (py "%LOCALAPPDATA%\Pandoc\pandoc.exe");
      expanduser h (py "~\AppData\Local\Pandoc\pandoc.exe") ]
  else
    [ py "/usr/local/bin/pandoc"; py "/usr/bin/pandoc";
      py "/opt/homebrew/bin/pandoc" ].

Definition find_pandoc (h : host) : option pystr :=
  match first_env h [py "PANDOC"; py "PANDOC_PATH"] with
  | Some p => Some p
  | None =>
      match which h (py "pandoc") with
      | Some w => if truthy w then Some w
                  else first_existing h (pandoc_candidates h)
      | None => first_existing h (pandoc_candidates h)
      end
  end.

Definition markdown_to_latex (h : host) (md_text : pystr) : outcome pystr :=
  match find_pandoc h with
  | None => Returned (naive_md_to_latex md_text)
  | Some pandoc =>
      if negb (truthy pandoc) then Returned (naive_md_to_latex md_text)
      else
        match run_process h [pandoc; py "-f"; py "gfm"; py "-t"; py "latex"]
                          md_text with
        | Run_raised => Raised
        | Completed returncode stdout _ =>
            if negb (Z.eqb returncode 0)
            then Returned (naive_md_to_latex md_text)
            else Returned stdout
        end
  end.

(** ** Metadata Extractor: [parse_sections_from_markdown] *)

Definition is_match (r : regex) (s : pystr) : bool :=
  match re_match r s with Some _ => true | None => false end.

(** abs_re: ^#{1,6}\s*abstract\s*$ with IGNORECASE. *)
Definition abs_re : regex :=
  Cat (Rep true 1 (Some 6%nat) (is_chr (ch "#")))
 (Cat (star isspace)
 (Cat (lit_i (py "abstract"))
 (Cat (star isspace)
      Eol))).

(** key_re: ^(keywords|index terms)\s*[:...-]\s*(.+)$ with IGNORECASE.  The
    class holds the colon, the hyphen and the three code points U+00E2,
    U+20AC, U+201D that the source file has between them. *)
Definition key_label : regex :=
  Alt (lit_i (py "keywords")) (lit_i (py "index terms")).

Definition key_sep : N -> bool := class_i [58; 226; 8364; 8221; 45].

Definition key_before : regex :=
  Cat key_label (Cat (star isspace) (Cat (Chr key_sep) (star isspace))).

Definition key_re : regex :=
  Cat key_before (Cat (plus not_newline) Eol).

(** [m = key_re.match(s)] followed by [m.group(2)]; [None] when there is no
    match. *)
Definition key_group2 (s : pystr) : option pystr :=
  match_group key_before (plus not_newline) Eol s.

(** The separator of keywords: [;,]\s*|,?\s+and\s+ *)
Definition kw_split_re : regex :=
  Alt (Cat (Chr (fun x => mem x [ch ";"; ch ","])) (star isspace))
      (Cat (opt (is_chr (ch ",")))
      (Cat (plus isspace)
      (Cat (lit (py "and"))
           (plus isspace)))).

Definition space_or_dot : N -> bool := fun x => mem x [ch " "; ch "."].

(** [ks = re.split(..., rest); [k.strip(" .") for k in ks if k.strip()]] *)
Definition split_keywords (rest : pystr) : list pystr :=
  List.map (strip_by space_or_dot)
    (List.filter (fun k => truthy (strip k)) (re_split kw_split_re rest)).

(** The first loop: the first line that starts with "# " gives the title. *)
Fixpoint find_title (lines : list pystr) : pystr :=
  match lines with
  | [] => []
  | ln :: rest =>
      if startswith ln (py "# ") then strip (skipn 2 ln)
      else find_title rest
  end.

(** The variables of the second loop. *)
Record scan_state : Type := Build_scan {
  in_abs : bool;
  abs_buf : list pystr;
  keywords : list pystr
}.

Definition scan_init : scan_state := Build_scan false [] [].

(** The body of the second loop, on one line. *)
Definition scan_line (st : scan_state) (ln : pystr) : scan_state :=
  if is_match abs_re (strip ln) then
    Build_scan true (abs_buf st) (keywords st)             (* continue *)
  else
    let in_abs1 :=
      if in_abs st && startswith ln (py "#") then false else in_abs st in
    let abs_buf1 :=
      if in_abs1 then abs_buf st ++ [strip ln] else abs_buf st in
    let keywords1 :=
      match key_group2 (strip ln) with
      | Some rest =>
          match keywords st with
          | [] => split_keywords rest
          | _ :: _ => keywords st
          end
      | None => keywords st
      end in
    Build_scan in_abs1 abs_buf1 keywords1.

Definition scan_lines (st : scan_state) (lines : list pystr) : scan_state :=
  fold_left scan_line lines st.

(** The markers of an author or affiliation line, searched with re.I:
    @|University|Institute|College|Department|Dept\.|School|Research|Lab *)
Definition marker_re : regex :=
  Alt (lit (py "@"))
 (Alt (lit_i (py "university"))
 (Alt (lit_i (py "institute"))
 (Alt (lit_i (py "college"))
 (Alt (lit_i (py "department"))
 (Alt (lit_i (py "dept."))
 (Alt (lit_i (py "school"))
 (Alt (lit_i (py "research"))
      (lit_i (py "lab"))))))))).

(** The third loop, over [lines[:20]]. *)
Fixpoint collect_possible (possible : list pystr) (lines : list pystr)
    : list pystr :=
  match lines with
  | [] => possible
  | ln :: rest =>
      if startswith ln (py "#") || is_match abs_re ln || is_match key_re ln
      then collect_possible possible rest
      else
        match re_search marker_re ln with
        | Some _ => collect_possible (possible ++ [strip ln]) rest
        | None => collect_possible possible rest
        end
  end.

Record metadata : Type := Build_metadata {
  md_title : pystr;
  md_abstract : pystr;
  md_keywords : list pystr;
  md_authors_raw : pystr
}.

Definition parse_sections_from_markdown (md_text : pystr) : metadata :=
  let lines := splitlines md_text in
  let st := scan_lines scan_init lines in
  Build_metadata
    (find_title lines)
    (strip (join (py " ") (abs_buf st)))
    (keywords st)
    (join [NL] (firstn 4 (collect_possible [] (firstn 20 lines)))).

(** ** Author Block Parser: [split_authors_blocks] *)

(** The separator of chunks: \n\s*\n|;\s* *)
Definition chunk_split_re : regex :=
  Alt (Cat (Chr (is_chr NL)) (Cat (star isspace) (Chr (is_chr NL))))
      (Cat (Chr (is_chr (ch ";"))) (star isspace)).

(** The e-mail pattern, written in a raw string with every backslash
    doubled: ([\\w\\.-]+@[\\w\\.-]+\\.\\w+).  In a raw string a doubled
    backslash reaches the regex compiler as two characters, which it reads
    as one literal backslash.  So the class holds the backslash, the letter
    w, the dot and the hyphen, and after the second run the pattern asks for
    a backslash, any character but a newline, a backslash and a run of the
    letter w. *)
Definition email_class : N -> bool :=
  fun x => mem x [BSL; ch "w"; BSL; ch "."; ch "-"].

Definition email_re : regex :=
  Cat (plus email_class)
 (Cat (Chr (is_chr (ch "@")))
 (Cat (plus email_class)
 (Cat (Chr (is_chr BSL))
 (Cat (Chr not_newline)
 (Cat (Chr (is_chr BSL))
      (plus (is_chr (ch "w")))))))).

(** The loop over chunks. *)
Fixpoint authors_loop (authors : list author) (chunks : list pystr)
    : list author :=
  match chunks with
  | [] => authors
  | chunk :: rest =>
      if negb (truthy (strip chunk)) then authors_loop authors rest
      else
        let email :=
          match re_search email_re chunk with
          | Some (m, _) => Some m
          | None => None
          end in
        let nm := strip (before_first (ch ",") chunk) in
        let affil := strip chunk in
        authors_loop
          (authors ++ [Build_author nm affil [] []
                         (match email with Some e => py_or e [] | None => [] end)])
          rest
  end.

Definition empty_author : author := Build_author [] [] [] [] [].

Definition split_authors_blocks (authors_raw : pystr) : list author :=
  match authors_loop [] (re_split chunk_split_re (strip authors_raw)) with
  | [] => [empty_author]
  | a :: l => a :: l
  end.

(** ** Body Sanitizer: [strip_abstract_keywords_from_latex]

    Both patterns are raw strings with every backslash doubled, so each
    doubled backslash stands for one literal backslash of the text, also in
    front of the star and of the braces:
    - \\section is the text \section;
    - \\*? is a lazy run of backslashes;
    - \\{ and \\} are a backslash followed by a brace.
    The flag re.S lets the dot match every character. *)

(** (?=\\section|\\subsection|\\subsubsection|\\paragraph|\\end\\{document\\}|$) *)
Definition section_stop : regex :=
  Alt (lit (py "\section"))
 (Alt (lit (py "\subsection"))
 (Alt (lit (py "\subsubsection"))
 (Alt (lit (py "\paragraph"))
 (Alt (lit (py "\end\{document\}"))
      Eol)))).

(** \\section\\*?\\{[Aa]bstract\\}.*?(?=...) *)
Definition abstract_section_re : regex :=
  Cat (lit (py "\section"))
 (Cat (star_lazy (is_chr BSL))
 (Cat (lit (py "\{"))
 (Cat (Chr (fun x => mem x [ch "A"; ch "a"]))
 (Cat (lit (py "bstract\}"))
 (Cat (star_lazy any_chr)
      (Ahead section_stop)))))).

(** \\section\\*?\\{[Kk]eywords?.*?\\}.*?(?=...) *)
Definition keywords_section_re : regex :=
  Cat (lit (py "\section"))
 (Cat (star_lazy (is_chr BSL))
 (Cat (lit (py "\{"))
 (Cat (Chr (fun x => mem x [ch "K"; ch "k"]))
 (Cat (lit (py "eyword"))
 (Cat (opt (is_chr (ch "s")))
 (Cat (star_lazy any_chr)
 (Cat (lit (py "\}"))
 (Cat (star_lazy any_chr)
      (Ahead section_stop))))))))).

Definition strip_abstract_keywords_from_latex (latex_body : pystr) : pystr :=
  let latex_body1 := re_sub_empty abstract_section_re latex_body in
  re_sub_empty keywords_section_re latex_body1.

(** ** Generation: the render context built by [generate] *)

(** The submitted form: a multi-dictionary, whose [get] returns the first
    value stored under the key, or the default. *)
Definition form_data := list (pystr * pystr).

Fixpoint form_get (form : form_data) (key default : pystr) : pystr :=
  match form with
  | [] => default
  | (k, v) :: rest => if pystr_eqb k key then v else form_get rest key default
  end.

Definition is_digit (c : N) : bool := (48 <=? c) && (c <=? 57).

(** *** [int] on a string

    [int(s)] first maps [s] into ASCII, then reads the result as a decimal
    literal.  It depends on two things besides [s]: the decimal digits of
    the Unicode database of the running Python, and the limit on the
    number of digits. *)
Record interpreter : Type := Build_interpreter {
  unicode_decimal : N -> option N;  (* the decimal digit value of a code
                                       point, if it is a decimal digit *)
  int_max_str_digits : nat          (* sys.get_int_max_str_digits();
                                       0 for no limit *)
}.

(** The image of one code point: a code point below 127 is kept, any other
    white space becomes a blank, any other decimal digit the ASCII digit
    of its value, and anything else a question mark. *)
Definition to_ascii (ip : interpreter) (c : N) : N :=
  if c <? 127 then c
  else if isspace c then 32
  else match unicode_decimal ip c with
       | Some d => 48 + d
       | None => 63
       end.

(** A string that is ASCII already is taken as it is. *)
Definition transform_decimal_and_space (ip : interpreter) (s : pystr)
    : pystr :=
  if forallb (fun c => c <? 128) s then s else List.map (to_ascii ip) s.

(** White space of the C locale: tab to carriage return, and the blank.
    The separators U+001C to U+001F, which [str.strip] removes, are not
    among them. *)
Definition c_isspace (c : N) : bool :=
  ((9 <=? c) && (c <=? 13)) || (c =? 32).

(** The run of digits and underscores at the front of [s]: its value, the
    number of its digits, and what follows it.  Two underscores in a row
    and an underscore at the end of the run are errors. *)
Fixpoint scan_digits (acc : Z) (digits : nat) (prev_underscore : bool)
    (s : pystr) : option (Z * nat * pystr) :=
  match s with
  | [] => if prev_underscore then None else Some (acc, digits, [])
  | c :: s' =>
      if is_digit c
      then scan_digits (acc * 10 + Z.of_N (c - 48)) (S digits) false s'
      else if c =? ch "_"
      then if prev_underscore then None else scan_digits acc digits true s'
      else if prev_underscore then None else Some (acc, digits, s)
  end.

(** The decimal literal: white space, an optional sign, a run of digits
    that does not start with an underscore, holds at least one digit and
    no more digits than the limit allows, and white space up to the
    end. *)
Definition long_from_string (max_str_digits : nat) (s : pystr) : option Z :=
  let s1 := lstrip_by c_isspace s in
  let signed :=
    match s1 with
    | c :: s2 =>
        if c =? ch "+" then (1%Z, s2)
        else if c =? ch "-" then ((-1)%Z, s2)
        else (1%Z, s1)
    | [] => (1%Z, s1)
    end in
  let sign := fst signed in
  let str := snd signed in
  if startswith str (py "_") then None
  else
    match scan_digits 0 0 false str with
    | None => None
    | Some (z, digits, rest) =>
        if (640 <? digits)%nat && (0 <? max_str_digits)%nat
           && (max_str_digits <? digits)%nat
        then None
        else if (digits =? 0)%nat then None
        else
          match lstrip_by c_isspace rest with
          | [] => Some (sign * z)%Z
          | _ :: _ => None
          end
    end.

(** [int(s)] on a string; [None] stands for ValueError. *)
Definition py_int (ip : interpreter) (s : pystr) : option Z :=
  long_from_string (int_max_str_digits ip) (transform_decimal_and_space ip s).

(** The decimal digits of Unicode 14 outside ASCII: the code points of the
    65 zero digits; the other nine digits of a script follow its zero. *)
Definition decimal_zeros : list N :=
  [1632; 1776; 1984; 2406; 2534; 2662; 2790; 2918; 3046; 3174; 3302; 3430;
   3558; 3664; 3792; 3872; 4160; 4240; 6112; 6160; 6470; 6608; 6784; 6800;
   6992; 7088; 7232; 7248; 42528; 43216; 43264; 43472; 43504; 43600; 44016;
   65296; 66720; 68912; 69734; 69872; 69942; 70096; 70384; 70736; 70864;
   71248; 71360; 71472; 71904; 72016; 72784; 73040; 73120; 92768; 92864;
   93008; 120782; 120792; 120802; 120812; 120822; 123200; 123632; 125264;
   130032].

Definition unicode14_decimal (c : N) : option N :=
  match List.find (fun z => (z <=? c) && (c <? z + 10)) decimal_zeros with
  | Some z => Some (c - z)
  | None => None
  end.

(** Python 3.11 as it starts: Unicode 14, at most 4300 digits. *)
Definition python_3_11 : interpreter :=
  Build_interpreter unicode14_decimal 4300.

(** [str(i)] for a natural number. *)
Definition py_str_nat (i : nat) : pystr :=
  py (NilEmpty.string_of_uint (Nat.to_uint i)).

(** The dictionary appended for row [i]. *)
Definition author_row (form : form_data) (i : nat) : author :=
  let prefix := py "author_" ++ py_str_nat i ++ py "_" in
  Build_author
    (strip (form_get form (prefix ++ py "name") []))
    (strip (form_get form (prefix ++ py "affiliation") []))
    (strip (form_get form (prefix ++ py "organization") []))
    (strip (form_get form (prefix ++ py "city_country") []))
    (strip (form_get form (prefix ++ py "email") [])).

(** [for i in range(rows): authors.append(...)] *)
Definition author_rows (form : form_data) (rows : Z) : list author :=
  List.map (author_row form) (seq 0 (Z.to_nat rows)).

(** The separator of the submitted keywords: [;,] *)
Definition form_kw_split_re : regex :=
  Chr (fun x => mem x [ch ";"; ch ","]).

Definition form_keywords (form : form_data) : list pystr :=
  List.map strip
    (List.filter (fun k => truthy (strip k))
       (re_split form_kw_split_re (form_get form (py "keywords") []))).

(** The output directory of the job, as [generate] finds it. *)
Record job : Type := Build_job {
  out_dir_exists : bool;             (* out_dir.exists() *)
  session_body_md : outcome pystr;   (* the entry body_md of the dictionary
                                        read from session.json; raises when
                                        the file cannot be read or decoded,
                                        holds no JSON, or has no such entry
                                        with a string *)
  read_text : pystr -> outcome pystr (* (out_dir / name).read_text(...) *)
}.

(** How a call of [generate] ends, up to the rendering of the manuscript
    (the files written after it and the archive are not modelled): with an
    exception, with the redirect of an expired session, or with the context
    and the manuscript text rendered from it. *)
Inductive gen_result : Type :=
| Gen_raised : gen_result
| Gen_session_expired : gen_result
| Gen_paper : render_context -> pystr -> gen_result.

Definition generate (h : host) (ip : interpreter) (form : form_data)
    (j : job) : gen_result :=
  let title := strip (form_get form (py "title") []) in
  let abstract := strip (form_get form (py "abstract") []) in
  let kws := form_keywords form in
  match py_int ip (form_get form (py "author_rows") (py "1")) with
  | None => Gen_raised
  | Some rows =>
      let authors := author_rows form rows in
      if negb (out_dir_exists j) then Gen_session_expired
      else
        match session_body_md j with
        | Raised => Gen_raised
        | Returned body_name =>
            match read_text j body_name with
            | Raised => Gen_raised
            | Returned body_md =>
                match markdown_to_latex h body_md with
                | Raised => Gen_raised
                | Returned body_latex0 =>
                    let body_latex :=
                      strip_abstract_keywords_from_latex body_latex0 in
                    let context :=
                      Build_context (py_or title (py "Untitled")) authors
                                    abstract kws body_latex (py "refs") in
                    match render_template h context with
                    | Raised => Gen_raised
                    | Returned paper_tex => Gen_paper context paper_tex
                    end
                end
            end
        end
  end.

(** The job directory that [upload] leaves behind: session.json names
    body.md, and body.md holds the markup. *)
Definition stored_job (md_text : pystr) : job :=
  Build_job true (Returned (py "body.md"))
    (fun name =>
       if pystr_eqb name (py "body.md") then Returned md_text else Raised).



(** A host on which nothing is installed and no variable is set; its
    template prints the title. *)
Definition bare_host : host :=
  Build_host (fun _ => None) (fun _ => false) (fun p => p) (fun _ => None)
             false (fun p => p) (fun p => p) (fun _ _ => Run_raised)
             (fun c => Returned (py "\title{" ++ ctx_title c ++ py "}")).


(** The two tests of the second loop of the extractor, on a line. *)
Definition is_abstract_line (ln : pystr) : bool :=
  is_match abs_re (strip ln).

Definition keywords_of_line (ln : pystr) : option pystr :=
  key_group2 (strip ln).

(** An absent form field. *)
Definition absent (form : form_data) (key : pystr) : Prop :=
  forall v, ~ In (key, v) form.

(** ** Declarative reading of patterns

    [matches r s s']: some way of matching [r] at the front of [s] leaves
    [s'].  The backtracking matcher finds one of these ways, and it finds
    one whenever there is one that the rest of the pattern accepts. *)

Inductive reps (p : N -> bool) : nat -> option nat -> pystr -> pystr -> Prop :=
| reps_stop : forall hi s, reps p 0 hi s s
| reps_more : forall lo hi c s s',
    p c = true -> hi_allows hi = true ->
    reps p (pred lo) (hi_pred hi) s s' ->
    reps p lo hi (c :: s) s'.

Inductive matches : regex -> pystr -> pystr -> Prop :=
| M_eps : forall s, matches Eps s s
| M_chr : forall p c s, p c = true -> matches (Chr p) (c :: s) s
| M_cat : forall a b s1 s2 s3,
    matches a s1 s2 -> matches b s2 s3 -> matches (Cat a b) s1 s3
| M_alt_l : forall a b s s', matches a s s' -> matches (Alt a b) s s'
| M_alt_r : forall a b s s', matches b s s' -> matches (Alt a b) s s'
| M_rep : forall g lo hi p s s',
    reps p lo hi s s' -> matches (Rep g lo hi p) s s'
| M_eol : forall s, at_eol s = true -> matches Eol s s
| M_ahead : forall a s s', matches a s s' -> matches (Ahead a) s s.

(** ** Deletions that stop in front of a section-level command

    What follows a removed section in the output of the sanitizer: nothing,
    a single newline, or a backslash followed by the first letter of one of
    the commands of the lookahead. *)
Definition after_cut (out : pystr) : Prop :=
  out = [] \/ out = [NL] \/
  exists x rest, out = BSL :: x :: rest /\ mem x [ch "s"; ch "p"; ch "e"] = true.

(** [cut s out]: [out] is [s] with some segments removed, each removal
    leaving an [after_cut] text behind it. *)
Inductive cut : pystr -> pystr -> Prop :=
| cut_nil : cut [] []
| cut_keep : forall c s out, cut s out -> cut (c :: s) (c :: out)
| cut_drop : forall d s out, cut s out -> after_cut out -> cut (d ++ s) out.

(** A word that cannot straddle a removal: none of its non-empty suffixes
    starts the way an [after_cut] text does. *)
Definition cut_start (w : pystr) : bool :=
  match w with
  | [] => false
  | [c] => (c =? NL) || (c =? BSL)
  | c :: x :: _ => (c =? NL) || ((c =? BSL) && mem x [ch "s"; ch "p"; ch "e"])
  end.

Fixpoint solid (w : pystr) : bool :=
  match w with
  | [] => true
  | _ :: w' => negb (cut_start w) && solid w'
  end.

(** No position of [s] starts a match of [r]. *)
Definition match_free (r : regex) (s : pystr) : Prop :=
  forall pre u, s = pre ++ u -> re_match r u = None.

(** [w] occurs in [s]. *)
Definition occurs (w s : pystr) : Prop :=
  exists pre post, s = pre ++ w ++ post.

(** The headings that the two patterns of the sanitizer accept: the text
    \section, a non-empty run of backslashes ([bs] and the one in front of
    the brace), the brace, and the word. *)
Definition abstract_heading (bs : pystr) (a : N) : pystr :=
  py "\section" ++ bs ++ py "\{" ++ a :: py "bstract\}".

Definition keywords_heading (bs : pystr) (a : N) : pystr :=
  py "\section" ++ bs ++ py "\{" ++ a :: py "eyword".

Definition all_backslashes (bs : pystr) : Prop :=
  Forall (fun c => is_chr BSL c = true) bs.

(** A character that is neither a newline nor a backslash. *)
Definition plain (c : N) : bool := negb (c =? NL) && negb (c =? BSL).

(** ** The upload path: [docx_to_markdown], [upload], and [diag] *)

(** How [docx_to_markdown] ends: with the markup, with one of its two
    RuntimeErrors (and the message), or with the exception raised by the
    run of the converter. *)
Inductive docx_result : Type :=
| Docx_markdown : pystr -> docx_result
| Docx_runtime_error : pystr -> docx_result
| Docx_run_raised : docx_result.

(** The converter is looked up with [which] only.  The command is run
    without input; the creation of the media directory is not modelled. *)
Definition docx_to_markdown (h : host) (docx_path media_dir : pystr)
    : docx_result :=
  let missing :=
    Docx_runtime_error
      (py "Pandoc is required to convert DOCX. Please install Pandoc.") in
  match which h (py "pandoc") with
  | None => missing
  | Some w =>
      if negb (truthy w) then missing
      else
        match run_process h
                [py "pandoc"; docx_path; py "-t"; py "gfm";
                 py "--extract-media"; media_dir] [] with
        | Run_raised => Docx_run_raised
        | Completed rc out err =>
            if negb (Z.eqb rc 0)
            then Docx_runtime_error (py "Pandoc failed: " ++ err)
            else Docx_markdown out
        end
  end.

(** The values handed to the review page. *)
Record review_page : Type := Build_review {
  guessed_title : pystr;
  guessed_abstract : pystr;
  guessed_keywords : pystr;
  review_authors : list author;
  body_preview : pystr
}.

(** How [upload] ends once the file is saved: with a redirect to the start
    page (the conversion raised; the message is the one of a RuntimeError,
    or the system's), with an exception of the typeset conversion, or with
    the markup stored as body.md and the review page. *)
Inductive upload_result : Type :=
| Upload_redirect : option pystr -> upload_result
| Upload_raised : upload_result
| Upload_review : pystr -> review_page -> upload_result.

(** [upload], from the call of [docx_to_markdown] on.  The check of the
    file name, the job identifier and the directories are not modelled. *)
Definition upload (h : host) (docx_path media_dir : pystr) : upload_result :=
  match docx_to_markdown h docx_path media_dir with
  | Docx_runtime_error msg => Upload_redirect (Some msg)
  | Docx_run_raised => Upload_redirect None
  | Docx_markdown md_text =>
      let meta_guess := parse_sections_from_markdown md_text in
      let authors := split_authors_blocks (md_authors_raw meta_guess) in
      match markdown_to_latex h md_text with
      | Raised => Upload_raised
      | Returned latex_body0 =>
          let latex_body := strip_abstract_keywords_from_latex latex_body0 in
          Upload_review md_text
            (Build_review (md_title meta_guess) (md_abstract meta_guess)
               (join (py "; ") (md_keywords meta_guess))
               authors (firstn 2000 latex_body))
      end
  end.

(** The dictionary returned by [diag]. *)
Record diag_page : Type := Build_diag {
  diag_pandoc_path : option pystr;
  diag_PATH : pystr
}.

Definition diag (h : host) : diag_page :=
  let path :=
    match environ_get h (py "PATH") with Some p => p | None => [] end in
  Build_diag (find_pandoc h)
    (firstn 500 path ++
     (if (500 <? List.length path)%nat then py "..." else [])).

(** [a] is [b] with some characters left out. *)
Inductive subsequence : pystr -> pystr -> Prop :=
| subseq_nil : subsequence [] []
| subseq_keep : forall c a b, subsequence a b -> subsequence (c :: a) (c :: b)
| subseq_skip : forall c a b, subsequence a b -> subsequence a (c :: b).

(** The key of field [field] of author row [i] in the submitted form. *)
Definition author_key (i : nat) (field : pystr) : pystr :=
  (py "author_" ++ py_str_nat i ++ py "_") ++ field.

(** [w in s], decided. *)
Fixpoint occursb (w s : pystr) : bool :=
  startswith s w ||
  match s with
  | [] => false
  | _ :: s' => occursb w s'
  end.

(** The separators of keyword lists. *)
Definition is_separator : N -> bool := fun x => mem x [ch ";"; ch ","].

(** What every record built by the Author Block Parser satisfies. *)
Definition parsed_author (a : author) : Prop :=
  organization a = [] /\ city_country a = [] /\
  ~ In (ch ",") (name a) /\
  strip (name a) = name a /\ strip (affiliation a) = affiliation a /\
  strip (email_or_orcid a) = email_or_orcid a /\
  (email_or_orcid a = [] \/
   (In (ch "@") (email_or_orcid a) /\
    occurs (email_or_orcid a) (affiliation a))).


(** A host with a converter named by the PANDOC variable only. *)
Definition override_host : host :=
  Build_host
    (fun key => if pystr_eqb key (py "PANDOC") then Some (py "/opt/pandoc")
                else None)
    (fun p => pystr_eqb p (py "/opt/pandoc")) (fun p => p) (fun _ => None)
    false (fun p => p) (fun p => p)
    (fun _ input => Completed 0 input [])
    (fun c => Returned (py "\title{" ++ ctx_title c ++ py "}")).

(** The markup of a small paper. *)
Definition sample_markup : pystr :=
  py "# My Title" ++ [NL] ++ py "Jane Doe, MIT Lab" ++ [NL] ++
  py "## Abstract" ++ [NL] ++ py "This is it." ++ [NL] ++
  py "## Intro" ++ [NL] ++ py "Keywords: x; y" ++ [NL] ++ py "Body text".

(** A host with pandoc on the search path; every run of it exits with
    status 0 and prints [sample_markup]. *)
Definition working_host : host :=
  Build_host (fun _ => None) (fun _ => false) (fun p => p)
             (fun _ => Some (py "/usr/bin/pandoc"))
             false (fun p => p) (fun p => p)
             (fun _ _ => Completed 0 sample_markup [])
             (fun c => Returned (py "\title{" ++ ctx_title c ++ py "}")).


(** A host without a converter whose template cannot be read. *)
Definition untemplated_host : host :=
  Build_host (fun _ => None) (fun _ => false) (fun p => p) (fun _ => None)
             false (fun p => p) (fun p => p) (fun _ _ => Run_raised)
             (fun _ => Raised).

(** A document whose first keywords line, inside the abstract section, is
    indented and gives no keyword. *)
Definition blank_keywords_markup : pystr :=
  py "## Abstract" ++ [NL] ++ py "  Keywords: ;" ++ [NL] ++
  py "## Intro" ++ [NL] ++ py "Keywords: x".

(** * Properties *)

(** ** The matcher and the declarative reading of patterns *)

Lemma rep_cons (R : Type) g p lo hi c s (k : pystr -> option R) :
  rep g p lo hi (c :: s) k =
  if p c && hi_allows hi then
    if g then
      match rep g p (pred lo) (hi_pred hi) s k with
      | Some r => Some r
      | None => match lo with O => k (c :: s) | S _ => None end
      end
    else
      match (match lo with O => k (c :: s) | S _ => None end) with
      | Some r => Some r
      | None => rep g p (pred lo) (hi_pred hi) s k
      end
  else match lo with O => k (c :: s) | S _ => None end.
Proof. reflexivity. Qed.

Lemma rep_sound (R : Type) g p (k : pystr -> option R) x :
  forall s lo hi,
    rep g p lo hi s k = Some x ->
    exists s', reps p lo hi s s' /\ k s' = Some x.
Proof.
  assert (Hstop : forall lo hi s,
             match lo with O => k s | S _ => None end = Some x ->
             exists s', reps p lo hi s s' /\ k s' = Some x).
  { intros [|lo] hi s H; [|discriminate].
    exists s; split; [constructor | exact H]. }
  induction s as [|c s IH]; intros lo hi H.
  - now apply Hstop.
  - rewrite rep_cons in H.
    destruct (p c && hi_allows hi) eqn:E; [|now apply Hstop].
    apply andb_true_iff in E as [Ep Eh].
    assert (Hmore : rep g p (pred lo) (hi_pred hi) s k = Some x ->
                    exists s', reps p lo hi (c :: s) s' /\ k s' = Some x).
    { intros H'. destruct (IH _ _ H') as (s' & Hr & Hk).
      exists s'; split; [now constructor | exact Hk]. }
    destruct g.
    + destruct (rep true p (pred lo) (hi_pred hi) s k) eqn:E1.
      * apply Hmore. congruence.
      * now apply Hstop.
    + destruct (match lo with O => k (c :: s) | S _ => None end) eqn:E1.
      * apply Hstop. congruence.
      * now apply Hmore.
Qed.

Lemma rep_complete (R : Type) g p (k : pystr -> option R) :
  forall lo hi s s',
    reps p lo hi s s' -> k s' <> None -> rep g p lo hi s k <> None.
Proof.
  intros lo hi s s' H Hk; induction H as [hi s | lo hi c s s' Hp Hh H IH].
  - destruct s as [|c s]; [exact Hk|].
    rewrite rep_cons.
    destruct (p c && hi_allows hi); [|exact Hk].
    destruct g.
    + destruct (rep true p (pred 0) (hi_pred hi) s k); [discriminate | exact Hk].
    + destruct (k (c :: s)); [discriminate | now elim Hk].
  - rewrite rep_cons, Hp, Hh; simpl.
    specialize (IH Hk).
    destruct g.
    + destruct (rep true p (pred lo) (hi_pred hi) s k); [discriminate | now elim IH].
    + destruct (match lo with O => k (c :: s) | S _ => None end);
        [discriminate | exact IH].
Qed.

Lemma exec_sound r :
  forall (R : Type) s (k : pystr -> option R) x,
    exec r s k = Some x -> exists s', matches r s s' /\ k s' = Some x.
Proof.
  induction r as [|p|a IHa b IHb|a IHa b IHb|g lo hi p| |a IHa];
    intros R s k x H; simpl in H.
  - exists s; split; [constructor | exact H].
  - destruct s as [|c s]; [discriminate|].
    destruct (p c) eqn:E; [|discriminate].
    exists s; split; [now constructor | exact H].
  - destruct (IHa _ _ _ _ H) as (s1 & Ha & H1).
    destruct (IHb _ _ _ _ H1) as (s2 & Hb & H2).
    exists s2; split; [econstructor; eassumption | exact H2].
  - destruct (exec a s k) eqn:E.
    + destruct (IHa _ _ _ _ E) as (s1 & Ha & H1).
      exists s1; split; [now apply M_alt_l | congruence].
    + destruct (IHb _ _ _ _ H) as (s1 & Hb & H1).
      exists s1; split; [now apply M_alt_r | exact H1].
  - destruct (rep_sound _ _ _ _ _ _ H) as (s' & Hr & Hk).
    exists s'; split; [now constructor | exact Hk].
  - destruct (at_eol s) eqn:E; [|discriminate].
    exists s; split; [now constructor | exact H].
  - destruct (exec a s (fun _ => Some tt)) eqn:E; [|discriminate].
    destruct (IHa _ _ _ _ E) as (s1 & Ha & _).
    exists s; split; [econstructor; eassumption | exact H].
Qed.

Lemma exec_complete r :
  forall (R : Type) s s' (k : pystr -> option R),
    matches r s s' -> k s' <> None -> exec r s k <> None.
Proof.
  induction r as [|p|a IHa b IHb|a IHa b IHb|g lo hi p| |a IHa];
    intros R s s' k H Hk; inversion H; subst; simpl.
  - exact Hk.
  - match goal with E : p _ = true |- _ => rewrite E end. exact Hk.
  - eapply IHa; [eassumption|]. eapply IHb; eassumption.
  - destruct (exec a s k) eqn:E; [discriminate|].
    exfalso. eapply IHa; eassumption.
  - destruct (exec a s k); [discriminate|]. eapply IHb; eassumption.
  - eapply rep_complete; eassumption.
  - match goal with E : at_eol _ = true |- _ => rewrite E end. exact Hk.
  - destruct (exec a s' (fun _ => Some tt)) eqn:E; [exact Hk|].
    exfalso. eapply IHa; [eassumption | | exact E]. discriminate.
Qed.

Lemma re_match_sound r s rest :
  re_match r s = Some rest -> matches r s rest.
Proof.
  intros H. destruct (exec_sound _ _ _ H) as (s' & Hm & E).
  now inversion E; subst.
Qed.

Lemma re_match_complete r s s' :
  matches r s s' -> re_match r s <> None.
Proof.
  intros H. eapply exec_complete; [eassumption | discriminate].
Qed.

(** Inversion of [matches], one constructor of patterns at a time. *)

Lemma cat_inv a b s s' :
  matches (Cat a b) s s' -> exists m, matches a s m /\ matches b m s'.
Proof. intros H; inversion H; subst; eauto. Qed.

Lemma alt_inv a b s s' :
  matches (Alt a b) s s' -> matches a s s' \/ matches b s s'.
Proof. intros H; inversion H; subst; auto. Qed.

Lemma chr_inv p s s' :
  matches (Chr p) s s' -> exists c, s = c :: s' /\ p c = true.
Proof. intros H; inversion H; subst; eauto. Qed.

Lemma rep_inv g lo hi p s s' :
  matches (Rep g lo hi p) s s' -> reps p lo hi s s'.
Proof. intros H; now inversion H; subst. Qed.

Lemma eol_inv s s' : matches Eol s s' -> s' = s /\ at_eol s = true.
Proof. intros H; inversion H; subst; auto. Qed.

Lemma ahead_inv a s s' :
  matches (Ahead a) s s' -> s' = s /\ exists t, matches a s t.
Proof. intros H; inversion H; subst; eauto. Qed.

Lemma lit_matches w : forall s s', matches (lit w) s s' -> s = w ++ s'.
Proof.
  induction w as [|c w IH]; intros s s' H; simpl in H.
  - now inversion H.
  - inversion H as [| |a b s1 s2 s3 Ha Hb| | | | |]; subst.
    inversion Ha as [|p c' s0 Hc| | | | | |]; subst.
    apply N.eqb_eq in Hc; subst c'. simpl. f_equal. now apply IH.
Qed.

Lemma lit_intro w s : matches (lit w) (w ++ s) s.
Proof.
  induction w as [|c w IH]; simpl.
  - constructor.
  - econstructor; [|exact IH]. constructor. apply N.eqb_refl.
Qed.

Lemma reps_inv p lo hi s s' :
  reps p lo hi s s' ->
  exists w, s = w ++ s' /\ Forall (fun c => p c = true) w.
Proof.
  induction 1 as [hi s | lo hi c s s' Hp _ _ (w & -> & Hw)].
  - now exists [].
  - exists (c :: w); split; [reflexivity | now constructor].
Qed.

Lemma reps_star_intro p w s :
  Forall (fun c => p c = true) w -> reps p 0 None (w ++ s) s.
Proof.
  induction 1 as [|c w Hc _ IH]; simpl.
  - constructor.
  - now constructor.
Qed.

Lemma star_lazy_any_intro w s : matches (star_lazy any_chr) (w ++ s) s.
Proof.
  constructor. apply reps_star_intro.
  induction w; now constructor.
Qed.

(** The lookahead of the sanitizer succeeds at the end of the text. *)
Lemma section_stop_at_end : matches (Ahead section_stop) [] [].
Proof.
  apply M_ahead with (s' := []).
  unfold section_stop. do 5 apply M_alt_r. now constructor.
Qed.

(** Where the lookahead succeeds, the text has the shape [after_cut]. *)
Lemma section_stop_shape s s' : matches section_stop s s' -> after_cut s.
Proof.
  unfold section_stop; intros H.
  repeat (apply alt_inv in H as [H|H];
          [apply lit_matches in H; subst s; right; right;
           eexists _, _; split; reflexivity|]).
  apply eol_inv in H as [_ H].
  destruct s as [|c [|d s]]; try discriminate.
  - now left.
  - right; left. simpl in *. f_equal. now apply N.eqb_eq.
Qed.

(** ** Removal of segments and solid words *)

Lemma solid_tail c w : solid (c :: w) = true -> solid w = true.
Proof. simpl. intros H. apply andb_true_iff in H. apply H. Qed.

Lemma solid_head c w : solid (c :: w) = true -> cut_start (c :: w) = false.
Proof.
  simpl. intros H. apply andb_true_iff in H as [H _].
  now apply negb_true_iff in H.
Qed.

Lemma after_cut_start c w out :
  after_cut (c :: w ++ out) -> cut_start (c :: w) = true.
Proof.
  intros [H | [H | (x & rest & H & Hx)]]; try discriminate.
  - injection H as -> H. destruct w; [reflexivity | discriminate].
  - injection H as -> H. destruct w as [|y w]; [reflexivity|].
    injection H as -> _. unfold cut_start. rewrite Hx. reflexivity.
Qed.

(** A solid word at the front of the output was at the front of the input. *)
Lemma cut_prefix s out :
  cut s out ->
  forall w out', solid w = true -> out = w ++ out' ->
  exists s', s = w ++ s' /\ cut s' out'.
Proof.
  induction 1 as [|c s out H IH|d s out H IH Ha]; intros w out' Hw E.
  - destruct w; [|discriminate]. exists []. simpl in E. subst out'.
    split; [reflexivity | constructor].
  - destruct w as [|c' w].
    + simpl in E; subst out'. exists (c :: s). split; [reflexivity|].
      now constructor.
    + injection E as <- E.
      destruct (IH _ _ (solid_tail _ _ Hw) E) as (s' & -> & Hs').
      now exists s'.
  - destruct w as [|c' w].
    + simpl in E; subst out'. exists (d ++ s). split; [reflexivity|].
      now constructor.
    + subst out. apply after_cut_start in Ha.
      rewrite (solid_head _ _ Hw) in Ha. discriminate.
Qed.

(** A position of the output is a position of the input. *)
Lemma cut_suffix s out :
  cut s out ->
  forall pre c out', out = pre ++ c :: out' ->
  exists pre' s', s = pre' ++ c :: s' /\ cut s' out'.
Proof.
  induction 1 as [|c s out H IH|d s out H IH Ha]; intros pre c' out' E.
  - destruct pre; discriminate.
  - destruct pre as [|x pre].
    + injection E as <- <-. now exists [], s.
    + injection E as <- E.
      destruct (IH _ _ _ E) as (pre' & s' & -> & Hs').
      now exists (c :: pre'), s'.
  - destruct (IH _ _ _ E) as (pre' & s' & -> & Hs').
    exists (d ++ pre'), s'. now rewrite <- app_assoc.
Qed.

(** An occurrence of a solid word in the output is one in the input. *)
Lemma cut_occurs s out c w :
  cut s out -> solid (c :: w) = true ->
  occurs (c :: w) out -> occurs (c :: w) s.
Proof.
  intros H Hw (pre & post & E).
  destruct (cut_suffix H pre c (w ++ post) E) as (pre' & s' & -> & Hs').
  destruct (cut_prefix Hs' w post (solid_tail _ _ Hw) eq_refl)
    as (s'' & -> & _).
  now exists pre', s''.
Qed.

(** ** [re.sub] with the empty replacement *)

Lemma sub_from_skip r n :
  forall s, sub_from r n s = sub_from r 0 (skipn n s).
Proof.
  induction n as [|n IH]; intros s; [reflexivity|].
  destruct s as [|c s]; [reflexivity|]. simpl skipn. rewrite <- IH.
  reflexivity.
Qed.

Lemma sub_from_cons r c s :
  sub_from r 0 (c :: s) =
  match re_match r (c :: s) with
  | Some rest =>
      match (List.length (c :: s) - List.length rest)%nat with
      | O => c :: sub_from r 0 s
      | S n => sub_from r n s
      end
  | None => c :: sub_from r 0 s
  end.
Proof. reflexivity. Qed.

Lemma sub_no_match r c s :
  re_match r (c :: s) = None ->
  re_sub_empty r (c :: s) = c :: re_sub_empty r s.
Proof. unfold re_sub_empty. rewrite sub_from_cons. now intros ->. Qed.

Lemma sub_match r d s rest :
  re_match r (d :: s ++ rest) = Some rest ->
  re_sub_empty r (d :: s ++ rest) = re_sub_empty r rest.
Proof.
  unfold re_sub_empty. rewrite sub_from_cons. intros ->.
  replace (List.length (d :: s ++ rest) - List.length rest)%nat
    with (S (List.length s)).
  2:{ change (List.length (d :: s ++ rest)) with (S (List.length (s ++ rest))).
      rewrite length_app. lia. }
  rewrite sub_from_skip. f_equal.
  rewrite skipn_app, skipn_all, Nat.sub_diag. reflexivity.
Qed.

Lemma sub_match_free r s : match_free r s -> re_sub_empty r s = s.
Proof.
  induction s as [|c s IH]; intros H; [reflexivity|].
  rewrite sub_no_match by (now apply (H [])).
  f_equal. apply IH. intros pre u ->. now apply (H (c :: pre)).
Qed.

(** ** One pass of the sanitizer

    What the two passes share: a match starts with a backslash, ends where
    the lookahead succeeds, and a match in a text with segments removed was
    already a match before the removal. *)

Section Sanitizer_pass.

Variable r : regex.

Hypothesis match_shape : forall u rest,
  re_match r u = Some rest ->
  exists d, u = BSL :: d ++ rest /\ after_cut rest.

Hypothesis match_reflects : forall c s out,
  cut s out -> re_match r (c :: out) <> None -> re_match r (c :: s) <> None.

Lemma no_match_unless_backslash c s : c <> BSL -> re_match r (c :: s) = None.
Proof.
  intros Hc. destruct (re_match r (c :: s)) eqn:E; [|reflexivity].
  destruct (match_shape _ E) as (d & H & _). congruence.
Qed.

Lemma no_match_empty : re_match r [] = None.
Proof.
  destruct (re_match r []) eqn:E; [|reflexivity].
  destruct (match_shape _ E) as (d & H & _). discriminate.
Qed.

(** The pass keeps the shape of a text that follows a removal. *)
Lemma sub_after_cut n :
  forall s, (List.length s <= n)%nat ->
            after_cut s -> after_cut (re_sub_empty r s).
Proof.
  induction n as [|n IH]; intros s Hn Hs.
  - destruct s; [now left | simpl in Hn; lia].
  - destruct Hs as [-> | [-> | (x & rest & -> & Hx)]].
    + now left.
    + rewrite sub_no_match by (now apply no_match_unless_backslash).
      right; now left.
    + destruct (re_match r (BSL :: x :: rest)) eqn:E.
      * destruct (match_shape _ E) as (d & Hd & Ha).
        injection Hd as Hd. rewrite Hd in E |- *.
        rewrite (sub_match _ _ _ E). apply IH; [|exact Ha].
        assert (Hl : (List.length p <= List.length (x :: rest))%nat)
          by (rewrite Hd, length_app; lia).
        simpl in Hl, Hn. lia.
      * rewrite sub_no_match by exact E.
        rewrite sub_no_match.
        2:{ apply no_match_unless_backslash. intros ->. discriminate. }
        right; right. now exists x, (re_sub_empty r rest).
Qed.

(** The pass removes segments, each in front of a stop of the lookahead. *)
Lemma sub_cut n :
  forall s, (List.length s <= n)%nat -> cut s (re_sub_empty r s).
Proof.
  induction n as [|n IH]; intros s Hn.
  - destruct s; [constructor | simpl in Hn; lia].
  - destruct s as [|c s]; [constructor|].
    destruct (re_match r (c :: s)) eqn:E.
    + destruct (match_shape _ E) as (d & Hd & Ha).
      rewrite Hd in E |- *. rewrite (sub_match _ _ _ E).
      assert (Hl : (List.length p <= n)%nat).
      { apply (f_equal (@List.length N)) in Hd.
        simpl in Hn, Hd. rewrite length_app in Hd. lia. }
      apply (cut_drop (BSL :: d)); [now apply IH|].
      now apply sub_after_cut with (n := n).
    + rewrite sub_no_match by exact E. constructor.
      apply IH. simpl in Hn; lia.
Qed.

(** After the pass no position of the text starts a match. *)
Lemma sub_leaves_no_match n :
  forall s, (List.length s <= n)%nat -> match_free r (re_sub_empty r s).
Proof.
  induction n as [|n IH]; intros s Hn.
  - destruct s; [|simpl in Hn; lia].
    intros pre u E. destruct pre, u; try discriminate.
    apply no_match_empty.
  - destruct s as [|c s].
    { intros pre u E. destruct pre, u; try discriminate.
      apply no_match_empty. }
    destruct (re_match r (c :: s)) eqn:E.
    + destruct (match_shape _ E) as (d & Hd & Ha).
      rewrite Hd in E |- *. rewrite (sub_match _ _ _ E).
      apply IH. apply (f_equal (@List.length N)) in Hd.
      simpl in Hn, Hd. rewrite length_app in Hd. lia.
    + rewrite sub_no_match by exact E.
      assert (Hs : (List.length s <= n)%nat) by (simpl in Hn; lia).
      intros pre u Eu. destruct pre as [|x pre].
      * simpl in Eu; subst u.
        destruct (re_match r (c :: re_sub_empty r s)) eqn:E'; [|reflexivity].
        exfalso. apply (match_reflects c (sub_cut s Hs)); [|exact E].
        now rewrite E'.
      * injection Eu as _ Eu. now apply (IH s Hs pre).
Qed.

(** Removals made by any pass do not bring a match of this pass about. *)
Lemma cut_keeps_match_free s out :
  cut s out -> match_free r s -> match_free r out.
Proof.
  intros H Hs pre u E. destruct u as [|c u]; [apply no_match_empty|].
  destruct (cut_suffix H pre c u E) as (pre' & s' & Es & Hs').
  destruct (re_match r (c :: u)) eqn:E'; [|reflexivity].
  exfalso. apply (match_reflects c Hs').
  - now rewrite E'.
  - now apply (Hs pre').
Qed.

End Sanitizer_pass.

(** ** The two patterns of the sanitizer *)

Lemma mem_In c l : mem c l = true -> In c l.
Proof.
  unfold mem. intros H. apply existsb_exists in H as (x & Hx & E).
  apply N.eqb_eq in E. now subst.
Qed.

Lemma solid_plain_app w1 w2 :
  forallb plain w1 = true -> solid w2 = true -> solid (w1 ++ w2) = true.
Proof.
  induction w1 as [|c w1 IH]; intros H1 H2; [exact H2|].
  simpl in H1. apply andb_true_iff in H1 as [Hc H1].
  change ((c :: w1) ++ w2) with (c :: (w1 ++ w2)).
  change (solid (c :: w1 ++ w2))
    with (negb (cut_start (c :: w1 ++ w2)) && solid (w1 ++ w2)).
  rewrite (IH H1 H2), andb_true_r.
  unfold plain in Hc. apply andb_true_iff in Hc as [Hn Hb].
  apply negb_true_iff in Hn, Hb.
  unfold cut_start. destruct (w1 ++ w2); now rewrite Hn, Hb.
Qed.

Lemma solid_backslashes bs w :
  all_backslashes bs ->
  solid (BSL :: ch "{" :: w) = true ->
  solid (bs ++ BSL :: ch "{" :: w) = true.
Proof.
  induction 1 as [|c bs Hc Hbs IH]; intros Hw; [exact Hw|].
  apply N.eqb_eq in Hc; subst c.
  change ((BSL :: bs) ++ BSL :: ch "{" :: w)
    with (BSL :: (bs ++ BSL :: ch "{" :: w)).
  change (solid (BSL :: bs ++ BSL :: ch "{" :: w))
    with (negb (cut_start (BSL :: bs ++ BSL :: ch "{" :: w))
          && solid (bs ++ BSL :: ch "{" :: w)).
  rewrite (IH Hw), andb_true_r.
  destruct Hbs as [|c bs Hc Hbs]; [reflexivity|].
  apply N.eqb_eq in Hc; subst c. reflexivity.
Qed.

Lemma abstract_heading_solid bs a :
  all_backslashes bs -> mem a [ch "A"; ch "a"] = true ->
  solid (tl (abstract_heading bs a)) = true.
Proof.
  intros Hbs Ha.
  change (tl (abstract_heading bs a))
    with (py "section" ++ bs ++ BSL :: ch "{" :: a :: py "bstract\}").
  apply solid_plain_app; [reflexivity|].
  apply solid_backslashes; [exact Hbs|].
  apply mem_In in Ha. destruct Ha as [<-|[<-|[]]]; reflexivity.
Qed.

Lemma keywords_heading_solid bs a :
  all_backslashes bs -> mem a [ch "K"; ch "k"] = true ->
  solid (tl (keywords_heading bs a)) = true.
Proof.
  intros Hbs Ha.
  change (tl (keywords_heading bs a))
    with (py "section" ++ bs ++ BSL :: ch "{" :: a :: py "eyword").
  apply solid_plain_app; [reflexivity|].
  apply solid_backslashes; [exact Hbs|].
  apply mem_In in Ha. destruct Ha as [<-|[<-|[]]]; reflexivity.
Qed.

(** Every match of the first pattern starts with a heading and ends where
    the lookahead succeeds. *)
Lemma abstract_section_inv u rest :
  matches abstract_section_re u rest ->
  exists bs a w,
    u = abstract_heading bs a ++ w ++ rest /\ all_backslashes bs /\
    mem a [ch "A"; ch "a"] = true /\ after_cut rest.
Proof.
  unfold abstract_section_re, star_lazy. intros H.
  apply cat_inv in H as (m1 & H1 & H).
  apply cat_inv in H as (m2 & H2 & H).
  apply cat_inv in H as (m3 & H3 & H).
  apply cat_inv in H as (m4 & H4 & H).
  apply cat_inv in H as (m5 & H5 & H).
  apply cat_inv in H as (m6 & H6 & H).
  apply lit_matches in H1, H3, H5.
  apply rep_inv, reps_inv in H2 as (bs & E2 & Hbs).
  apply chr_inv in H4 as (a & E4 & Ha).
  apply rep_inv, reps_inv in H6 as (w & E6 & _).
  apply ahead_inv in H as (-> & t & Ht).
  apply section_stop_shape in Ht.
  exists bs, a, w. subst. unfold abstract_heading.
  repeat (rewrite <- ?app_assoc, <- ?app_comm_cons). auto.
Qed.

(** Every text that starts with a heading is matched by the first pattern. *)
Lemma abstract_section_intro bs a w :
  all_backslashes bs -> mem a [ch "A"; ch "a"] = true ->
  matches abstract_section_re (abstract_heading bs a ++ w) [].
Proof.
  intros Hbs Ha. unfold abstract_section_re, abstract_heading.
  repeat (rewrite <- ?app_assoc, <- ?app_comm_cons).
  eapply M_cat; [apply lit_intro|].
  eapply M_cat; [constructor; apply reps_star_intro; exact Hbs|].
  eapply M_cat; [apply lit_intro|].
  eapply M_cat; [constructor; exact Ha|].
  eapply M_cat; [apply lit_intro|].
  eapply M_cat; [|apply section_stop_at_end].
  rewrite <- (app_nil_r w). apply star_lazy_any_intro.
Qed.

(** Every match of the second pattern starts with a heading that is followed,
    somewhere, by a backslash and a closing brace. *)
Lemma keywords_section_inv u rest :
  matches keywords_section_re u rest ->
  exists bs a x,
    u = keywords_heading bs a ++ x ++ rest /\ all_backslashes bs /\
    mem a [ch "K"; ch "k"] = true /\ occurs (py "\}") x /\ after_cut rest.
Proof.
  unfold keywords_section_re, star_lazy, opt. intros H.
  apply cat_inv in H as (m1 & H1 & H).
  apply cat_inv in H as (m2 & H2 & H).
  apply cat_inv in H as (m3 & H3 & H).
  apply cat_inv in H as (m4 & H4 & H).
  apply cat_inv in H as (m5 & H5 & H).
  apply cat_inv in H as (m6 & H6 & H).
  apply cat_inv in H as (m7 & H7 & H).
  apply cat_inv in H as (m8 & H8 & H).
  apply cat_inv in H as (m9 & H9 & H).
  apply lit_matches in H1, H3, H5, H8.
  apply rep_inv, reps_inv in H2 as (bs & E2 & Hbs).
  apply chr_inv in H4 as (a & E4 & Ha).
  apply rep_inv, reps_inv in H6 as (w1 & E6 & _).
  apply rep_inv, reps_inv in H7 as (w2 & E7 & _).
  apply rep_inv, reps_inv in H9 as (w3 & E9 & _).
  apply ahead_inv in H as (-> & t & Ht).
  apply section_stop_shape in Ht.
  exists bs, a, ((w1 ++ w2) ++ py "\}" ++ w3). subst.
  unfold keywords_heading.
  repeat (rewrite <- ?app_assoc, <- ?app_comm_cons).
  repeat split; auto.
  exists (w1 ++ w2), w3. now rewrite <- !app_assoc.
Qed.

Lemma keywords_section_intro bs a x :
  all_backslashes bs -> mem a [ch "K"; ch "k"] = true ->
  occurs (py "\}") x ->
  matches keywords_section_re (keywords_heading bs a ++ x) [].
Proof.
  intros Hbs Ha (pre & post & ->).
  unfold keywords_section_re, keywords_heading.
  repeat (rewrite <- ?app_assoc, <- ?app_comm_cons).
  eapply M_cat; [apply lit_intro|].
  eapply M_cat; [constructor; apply reps_star_intro; exact Hbs|].
  eapply M_cat; [apply lit_intro|].
  eapply M_cat; [constructor; exact Ha|].
  eapply M_cat; [apply lit_intro|].
  eapply M_cat; [constructor; apply reps_stop|].
  eapply M_cat; [apply star_lazy_any_intro|].
  eapply M_cat; [apply lit_intro|].
  eapply M_cat; [|apply section_stop_at_end].
  rewrite <- (app_nil_r post). apply star_lazy_any_intro.
Qed.

Lemma cons_inj (c d : N) (x y : pystr) : c :: x = d :: y -> c = d /\ x = y.
Proof. intros H; now injection H. Qed.

Lemma abstract_match_shape u rest :
  re_match abstract_section_re u = Some rest ->
  exists d, u = BSL :: d ++ rest /\ after_cut rest.
Proof.
  intros H. apply re_match_sound, abstract_section_inv in H
    as (bs & a & w & -> & _ & _ & Ha).
  exists (tl (abstract_heading bs a) ++ w). split; [|exact Ha].
  rewrite <- (app_assoc (tl (abstract_heading bs a)) w rest). reflexivity.
Qed.

Lemma abstract_match_reflects c s out :
  cut s out ->
  re_match abstract_section_re (c :: out) <> None ->
  re_match abstract_section_re (c :: s) <> None.
Proof.
  intros Hcut H.
  destruct (re_match abstract_section_re (c :: out)) as [rest|] eqn:E;
    [clear H | now elim H].
  apply re_match_sound, abstract_section_inv in E
    as (bs & a & w & E & Hbs & Ha & _).
  change (abstract_heading bs a ++ w ++ rest)
    with (BSL :: (tl (abstract_heading bs a) ++ w ++ rest)) in E.
  apply cons_inj in E as [-> E].
  destruct (cut_prefix Hcut _ _ (@abstract_heading_solid bs a Hbs Ha) E)
    as (s' & -> & _).
  apply re_match_complete with (s' := []).
  exact (@abstract_section_intro bs a s' Hbs Ha).
Qed.

Lemma keywords_match_shape u rest :
  re_match keywords_section_re u = Some rest ->
  exists d, u = BSL :: d ++ rest /\ after_cut rest.
Proof.
  intros H. apply re_match_sound, keywords_section_inv in H
    as (bs & a & x & -> & _ & _ & _ & Ha).
  exists (tl (keywords_heading bs a) ++ x). split; [|exact Ha].
  rewrite <- (app_assoc (tl (keywords_heading bs a)) x rest). reflexivity.
Qed.

Lemma occurs_app_l w x y : occurs w x -> occurs w (x ++ y).
Proof.
  intros (pre & post & ->). exists pre, (post ++ y).
  now rewrite <- !app_assoc.
Qed.

Lemma keywords_match_reflects c s out :
  cut s out ->
  re_match keywords_section_re (c :: out) <> None ->
  re_match keywords_section_re (c :: s) <> None.
Proof.
  intros Hcut H.
  destruct (re_match keywords_section_re (c :: out)) as [rest|] eqn:E;
    [clear H | now elim H].
  apply re_match_sound, keywords_section_inv in E
    as (bs & a & x & E & Hbs & Ha & Hx & _).
  change (keywords_heading bs a ++ x ++ rest)
    with (BSL :: (tl (keywords_heading bs a) ++ x ++ rest)) in E.
  apply cons_inj in E as [-> E].
  destruct (cut_prefix Hcut _ _ (@keywords_heading_solid bs a Hbs Ha) E)
    as (s' & -> & Hs').
  apply re_match_complete with (s' := []).
  apply (@keywords_section_intro bs a s' Hbs Ha).
  apply (cut_occurs Hs'); [reflexivity|].
  now apply occurs_app_l.
Qed.

(** ** Claims about the Body Sanitizer *)

(** C9: the Body Sanitizer is idempotent: for every text [t], sanitizing
    the sanitized text gives the sanitized text back. *)
Theorem sanitizer_idempotent (t : pystr) :
  strip_abstract_keywords_from_latex (strip_abstract_keywords_from_latex t)
  = strip_abstract_keywords_from_latex t.
Proof.
  unfold strip_abstract_keywords_from_latex.
  set (t1 := re_sub_empty abstract_section_re t).
  set (t2 := re_sub_empty keywords_section_re t1).
  assert (F1 : match_free abstract_section_re t1).
  { exact (@sub_leaves_no_match abstract_section_re abstract_match_shape
             abstract_match_reflects (List.length t) t (le_n _)). }
  assert (C2 : cut t1 t2).
  { exact (@sub_cut keywords_section_re keywords_match_shape
             (List.length t1) t1 (le_n _)). }
  assert (F2 : match_free keywords_section_re t2).
  { exact (@sub_leaves_no_match keywords_section_re keywords_match_shape
             keywords_match_reflects (List.length t1) t1 (le_n _)). }
  assert (F3 : match_free abstract_section_re t2).
  { exact (@cut_keeps_match_free abstract_section_re abstract_match_shape
             abstract_match_reflects t1 t2 C2 F1). }
  rewrite (sub_match_free F3). apply (sub_match_free F2).
Qed.

(** A text without a backslash in front of an opening brace has no section
    that the sanitizer would remove: it comes back unchanged. *)
Lemma sanitizer_needs_escaped_brace (t : pystr) :
  ~ occurs (py "\{") t -> strip_abstract_keywords_from_latex t = t.
Proof.
  intros Hno. unfold strip_abstract_keywords_from_latex.
  assert (F1 : match_free abstract_section_re t).
  { intros pre u -> . destruct (re_match abstract_section_re u) eqn:E;
      [exfalso | reflexivity].
    apply re_match_sound, abstract_section_inv in E
      as (bs & a & w & -> & _). apply Hno.
    exists (pre ++ py "\section" ++ bs), (a :: py "bstract\}" ++ w ++ p).
    unfold abstract_heading.
    repeat (rewrite <- ?app_assoc, <- ?app_comm_cons). reflexivity. }
  rewrite (sub_match_free F1). apply sub_match_free.
  intros pre u -> . destruct (re_match keywords_section_re u) eqn:E;
    [exfalso | reflexivity].
  apply re_match_sound, keywords_section_inv in E
    as (bs & a & w & -> & _). apply Hno.
  exists (pre ++ py "\section" ++ bs), (a :: py "eyword" ++ w ++ p).
  unfold keywords_heading.
  repeat (rewrite <- ?app_assoc, <- ?app_comm_cons). reflexivity.
Qed.

(** C3: on the text of a section headed Abstract, followed by its paragraph
    and by the next section, the Body Sanitizer returns its input as it is:
    the heading and the abstract are still there. *)
Theorem sanitizer_keeps_abstract_section :
  strip_abstract_keywords_from_latex
    (py "\section{Abstract}" ++ [NL] ++ py "This is it." ++ [NL] ++
     py "\section{Intro}" ++ [NL] ++ py "Body")
  = py "\section{Abstract}" ++ [NL] ++ py "This is it." ++ [NL] ++
    py "\section{Intro}" ++ [NL] ++ py "Body".
Proof. vm_compute. reflexivity. Qed.

(** ** Claims about the Metadata Extractor and the Author Block Parser *)

(** C1: on the document made of the line Keywords: A; b, and C. the
    extractor returns the three keywords A, b and "and C": the comma in
    front of the conjunction is taken by the first alternative of the
    separator, and the conjunction stays in the last term. *)
Theorem keywords_example_keeps_conjunction :
  md_keywords (parse_sections_from_markdown (py "Keywords: A; b, and C."))
  = [py "A"; py "b"; py "and C"].
Proof. vm_compute. reflexivity. Qed.

(** C2: on the chunk Jane Doe, MIT, jane@mit.edu the parser returns one
    record with the name Jane Doe, the whole chunk as affiliation, and an
    empty e-mail field. *)
Theorem author_example_has_no_email :
  split_authors_blocks (py "Jane Doe, MIT, jane@mit.edu")
  = [Build_author (py "Jane Doe") (py "Jane Doe, MIT, jane@mit.edu") [] [] []].
Proof. vm_compute. reflexivity. Qed.

(** ** Claims about the Fallback Typesetter and the converter adapter *)

Lemma naive_loop_map lines :
  forall out, naive_loop out lines = out ++ List.map naive_line lines.
Proof.
  induction lines as [|l ls IH]; intros out; simpl.
  - now rewrite app_nil_r.
  - rewrite IH, <- app_assoc. reflexivity.
Qed.

Lemma strip_prefix_app p s : strip_prefix p (p ++ s) = Some s.
Proof.
  induction p as [|c p IH]; simpl; [reflexivity|].
  now rewrite N.eqb_refl.
Qed.

Lemma startswith_app p s : startswith (p ++ s) p = true.
Proof. unfold startswith. now rewrite strip_prefix_app. Qed.

Lemma naive_line_section rest :
  naive_line (py "# " ++ rest) = py "\section{" ++ rest ++ py "}".
Proof.
  unfold naive_line. now rewrite (startswith_app (py "# ") rest).
Qed.

Lemma naive_line_subsection rest :
  naive_line (py "## " ++ rest) = py "\subsection{" ++ rest ++ py "}".
Proof.
  unfold naive_line. rewrite (startswith_app (py "## ") rest). reflexivity.
Qed.

Lemma naive_line_subsubsection rest :
  naive_line (py "### " ++ rest) = py "\subsubsection{" ++ rest ++ py "}".
Proof.
  unfold naive_line. rewrite (startswith_app (py "### ") rest). reflexivity.
Qed.

Lemma naive_line_other line :
  startswith line (py "# ") = false ->
  startswith line (py "## ") = false ->
  startswith line (py "### ") = false ->
  naive_line line = line.
Proof. intros H1 H2 H3. unfold naive_line. now rewrite H1, H2, H3. Qed.

(** C7: the Fallback Typesetter is a function of the lines of its input:
    its result is the image of each line, joined by newlines.  A line that
    starts with "# " becomes a section command around the rest of the line,
    one that starts with "## " a subsection command, one that starts with
    "### " a sub-subsection command, and any other line is its own image.
    The empty text gives the empty text and "# Intro" gives a section
    command with the argument Intro. *)
Theorem naive_md_to_latex_linewise :
  (forall text,
     naive_md_to_latex text
     = join [NL] (List.map naive_line (splitlines text))) /\
  (forall rest,
     naive_line (py "# " ++ rest) = py "\section{" ++ rest ++ py "}") /\
  (forall rest,
     naive_line (py "## " ++ rest) = py "\subsection{" ++ rest ++ py "}") /\
  (forall rest,
     naive_line (py "### " ++ rest) = py "\subsubsection{" ++ rest ++ py "}") /\
  (forall line,
     startswith line (py "# ") = false ->
     startswith line (py "## ") = false ->
     startswith line (py "### ") = false ->
     naive_line line = line) /\
  naive_md_to_latex [] = [] /\
  naive_md_to_latex (py "# Intro") = py "\section{Intro}".
Proof.
  split; [|split; [|split; [|split; [|split; [|split]]]]].
  - intros text. unfold naive_md_to_latex. now rewrite naive_loop_map.
  - exact naive_line_section.
  - exact naive_line_subsection.
  - exact naive_line_subsubsection.
  - exact naive_line_other.
  - reflexivity.
  - reflexivity.
Qed.

Lemma naive_md_to_latex_linewise_witness :
  naive_line (py "plain text") = py "plain text".
Proof.
  apply (proj1 (proj2 (proj2 (proj2 (proj2 naive_md_to_latex_linewise)))));
    reflexivity.
Defined.




(** ** Claims about generation *)

Lemma pystr_eqb_eq a : forall b, pystr_eqb a b = true -> a = b.
Proof.
  induction a as [|x a IH]; intros [|y b] H; try discriminate; [reflexivity|].
  simpl in H. apply andb_true_iff in H as [Hx H].
  apply N.eqb_eq in Hx. subst y. f_equal. now apply IH.
Qed.

Lemma form_get_absent form key default :
  absent form key -> form_get form key default = default.
Proof.
  induction form as [|[k v] form IH]; intros H; [reflexivity|].
  simpl. destruct (pystr_eqb k key) eqn:E.
  - apply pystr_eqb_eq in E. subst k. elim (H v). now left.
  - apply IH. intros v' Hin. apply (H v'). now right.
Qed.

Lemma nth_error_map_seq (A : Type) (f : nat -> A) n :
  forall start i a,
    nth_error (List.map f (seq start n)) i = Some a -> a = f (start + i)%nat.
Proof.
  induction n as [|n IH]; intros start i a H.
  - destruct i; discriminate.
  - destruct i as [|i]; simpl in H.
    + injection H as <-. now rewrite Nat.add_0_r.
    + apply IH in H. now rewrite Nat.add_succ_r.
Qed.

Lemma py_int_default ip : py_int ip (py "1") = Some 1%Z.
Proof. destruct ip as [dec lim]. destruct lim; reflexivity. Qed.

(** [int] is not [strip] followed by a run of digits: the separator U+001F,
    which [strip] removes, makes it fail, and it reads the decimal digits
    of other scripts, such as U+0662. *)
Lemma py_int_examples :
  py_int python_3_11 (py " 1_0 ") = Some 10%Z /\
  strip [49; 31] = [49] /\ py_int python_3_11 [49; 31] = None /\
  py_int python_3_11 [1634] = Some 2%Z /\
  py_int python_3_11 (py "two") = None.
Proof. repeat split; vm_compute; reflexivity. Qed.

(** C6, as the code has it: when [int] accepts the rows field (as it does
    when the field is absent), the job directory holds a readable session
    and the converter call returns, [generate] builds the context and hands
    it to the template; it raises only if the rendering does.  In that
    context a blank or absent abstract is the empty string, an empty or
    absent keywords field is the empty list, the author records are the
    rows of the form, one for each number below the rows field, and a row
    none of whose fields was submitted is the empty record; but a blank or
    absent title is replaced by the default title Untitled. *)
Theorem generate_defaults_title_only
    (h : host) (ip : interpreter) (form : form_data) (j : job)
    (rows : Z) (body_name body tex : pystr) :
  py_int ip (form_get form (py "author_rows") (py "1")) = Some rows ->
  out_dir_exists j = true ->
  session_body_md j = Returned body_name ->
  read_text j body_name = Returned body ->
  markdown_to_latex h body = Returned tex ->
  exists ctx,
    generate h ip form j
    = match render_template h ctx with
      | Returned paper_tex => Gen_paper ctx paper_tex
      | Raised => Gen_raised
      end /\
    (strip (form_get form (py "title") []) = [] ->
     ctx_title ctx = py "Untitled") /\
    (strip (form_get form (py "title") []) <> [] ->
     ctx_title ctx = strip (form_get form (py "title") [])) /\
    (strip (form_get form (py "abstract") []) = [] -> ctx_abstract ctx = []) /\
    (form_get form (py "keywords") [] = [] -> ctx_keywords ctx = []) /\
    ctx_author_blocks ctx
    = List.map (author_row form) (seq 0 (Z.to_nat rows)) /\
    List.length (ctx_author_blocks ctx) = Z.to_nat rows /\
    (absent form (py "author_rows") -> rows = 1%Z) /\
    (forall i,
       let prefix := py "author_" ++ py_str_nat i ++ py "_" in
       absent form (prefix ++ py "name") ->
       absent form (prefix ++ py "affiliation") ->
       absent form (prefix ++ py "organization") ->
       absent form (prefix ++ py "city_country") ->
       absent form (prefix ++ py "email") ->
       author_row form i = empty_author).
Proof.
  intros Hrows Hdir Hsession Hread Hconv. unfold generate.
  rewrite Hrows, Hdir, Hsession, Hread, Hconv. cbn [negb].
  eexists. split; [reflexivity|].
  cbn [ctx_title ctx_abstract ctx_keywords ctx_author_blocks].
  split; [|split; [|split; [|split; [|split; [|split; [|split]]]]]].
  - now intros ->.
  - unfold py_or. destruct (strip (form_get form (py "title") []));
      [intros H; now elim H | reflexivity].
  - now intros ->.
  - unfold form_keywords. now intros ->.
  - reflexivity.
  - unfold author_rows. now rewrite length_map, length_seq.
  - intros Habs. rewrite (form_get_absent _ Habs), py_int_default in Hrows.
    now injection Hrows.
  - intros i H1 H2 H3 H4 H5. unfold author_row. cbv zeta.
    now rewrite !form_get_absent by assumption.
Qed.

Lemma generate_defaults_title_only_witness :
  exists ctx,
    generate bare_host python_3_11 [] (stored_job [])
    = Gen_paper ctx (py "\title{Untitled}") /\
    ctx_title ctx = py "Untitled" /\ ctx_abstract ctx = [] /\
    ctx_keywords ctx = [] /\ ctx_author_blocks ctx = [empty_author].
Proof.
  destruct (@generate_defaults_title_only bare_host python_3_11 []
              (stored_job []) 1 (py "body.md") [] [] eq_refl eq_refl eq_refl
              eq_refl eq_refl)
    as (ctx & E & Ht & _ & Ha & Hk & Hau & _).
  exists ctx. rewrite (Ht eq_refl) in *.
  split; [|split; [reflexivity|split; [exact (Ha eq_refl)|
           split; [exact (Hk eq_refl) | exact Hau]]]].
  rewrite E. unfold bare_host at 1; cbn [render_template].
  now rewrite (Ht eq_refl).
Defined.

(** C6, as stated, fails: a request with an empty title, no other field and
    an empty stored body is rendered with the title Untitled, not with the
    empty string. *)
Lemma empty_title_rendered_as_default :
  exists ctx tex,
    generate bare_host python_3_11 [(py "title", [])] (stored_job [])
    = Gen_paper ctx tex /\
    ctx_title ctx = py "Untitled" /\ ctx_title ctx <> [] /\
    tex = py "\title{Untitled}".
Proof.
  eexists _, _. split; [vm_compute; reflexivity|].
  split; [reflexivity | split; [discriminate | reflexivity]].
Qed.

(** ** The second loop of the extractor *)

Lemma scan_lines_app st a b :
  scan_lines st (a ++ b) = scan_lines (scan_lines st a) b.
Proof. unfold scan_lines. apply fold_left_app. Qed.

Lemma scan_line_abstract st ln :
  is_abstract_line ln = true ->
  scan_line st ln = Build_scan true (abs_buf st) (keywords st).
Proof. unfold scan_line, is_abstract_line. now intros ->. Qed.

Lemma scan_line_in_abs st ln :
  is_abstract_line ln = false ->
  in_abs (scan_line st ln)
  = if in_abs st && startswith ln (py "#") then false else in_abs st.
Proof. unfold scan_line, is_abstract_line. now intros ->. Qed.

Lemma scan_line_abs_buf st ln :
  is_abstract_line ln = false ->
  abs_buf (scan_line st ln)
  = if in_abs (scan_line st ln) then abs_buf st ++ [strip ln] else abs_buf st.
Proof. unfold scan_line, is_abstract_line. now intros ->. Qed.

Lemma scan_line_keywords st ln :
  is_abstract_line ln = false ->
  keywords (scan_line st ln)
  = match keywords_of_line ln with
    | Some rest =>
        match keywords st with
        | [] => split_keywords rest
        | _ :: _ => keywords st
        end
    | None => keywords st
    end.
Proof. unfold scan_line, is_abstract_line, keywords_of_line. now intros ->. Qed.

(** Outside an abstract section, lines that are not abstract headings leave
    the buffer alone. *)
Lemma scan_outside ls :
  forall st,
    in_abs st = false ->
    Forall (fun l => is_abstract_line l = false) ls ->
    in_abs (scan_lines st ls) = false /\
    abs_buf (scan_lines st ls) = abs_buf st.
Proof.
  induction ls as [|l ls IH]; intros st Hin Hls; [now split|].
  inversion Hls as [|? ? Hl Hls']; subst.
  assert (Hi : in_abs (scan_line st l) = false).
  { rewrite scan_line_in_abs by exact Hl. now rewrite Hin. }
  destruct (IH (scan_line st l) Hi Hls') as [H1 H2].
  split; [exact H1|].
  change (scan_lines st (l :: ls)) with (scan_lines (scan_line st l) ls).
  rewrite H2, scan_line_abs_buf by exact Hl. now rewrite Hi.
Qed.

(** Inside an abstract section, every line that does not start with a hash
    sign is added to the buffer, trimmed. *)
Lemma scan_inside ls :
  forall st,
    in_abs st = true ->
    Forall (fun l => is_abstract_line l = false) ls ->
    Forall (fun l => startswith l (py "#") = false) ls ->
    in_abs (scan_lines st ls) = true /\
    abs_buf (scan_lines st ls) = abs_buf st ++ List.map strip ls.
Proof.
  induction ls as [|l ls IH]; intros st Hin Hls Hns.
  - split; [exact Hin | now rewrite app_nil_r].
  - inversion Hls as [|? ? Hl Hls']; inversion Hns as [|? ? Hn Hns']; subst.
    assert (Hi : in_abs (scan_line st l) = true).
    { rewrite scan_line_in_abs by exact Hl. now rewrite Hin, Hn. }
    destruct (IH (scan_line st l) Hi Hls' Hns') as [H1 H2].
    split; [exact H1|].
    change (scan_lines st (l :: ls)) with (scan_lines (scan_line st l) ls).
    rewrite H2, scan_line_abs_buf, Hi by exact Hl.
    now rewrite <- app_assoc.
Qed.

(** C4, as the code has it: when the only abstract heading line of the
    input (a line whose trimmed text is one to six hash signs, optional
    whitespace, the word abstract in any case, optional whitespace) is
    followed by N lines that do not start with a hash sign and then by a
    line that does, the extracted abstract is those N lines, each trimmed,
    joined by single spaces, and trimmed; and when no line of the input is
    an abstract heading line, the extracted abstract is empty. *)
Theorem abstract_of_single_section (md_text : pystr) :
  (forall pre h body h2 post,
     splitlines md_text = pre ++ h :: body ++ h2 :: post ->
     is_abstract_line h = true ->
     Forall (fun l => is_abstract_line l = false) (pre ++ body ++ h2 :: post) ->
     Forall (fun l => startswith l (py "#") = false) body ->
     startswith h2 (py "#") = true ->
     md_abstract (parse_sections_from_markdown md_text)
     = strip (join (py " ") (List.map strip body))) /\
  (Forall (fun l => is_abstract_line l = false) (splitlines md_text) ->
   md_abstract (parse_sections_from_markdown md_text) = []).
Proof.
  split.
  - intros pre h body h2 post E Hh Hno Hbody Hh2.
    unfold parse_sections_from_markdown; cbn [md_abstract]. rewrite E.
    apply Forall_app in Hno as [Hpre Hno].
    apply Forall_app in Hno as [Hb Hno].
    inversion Hno as [|? ? Hn2 Hpost]; subst.
    destruct (@scan_outside pre scan_init eq_refl Hpre) as [P1 P2].
    rewrite scan_lines_app.
    change (scan_lines ?s (h :: ?l)) with (scan_lines (scan_line s h) l).
    rewrite scan_line_abstract by exact Hh.
    rewrite scan_lines_app.
    set (st1 := Build_scan true _ _).
    destruct (@scan_inside body st1 eq_refl Hb Hbody) as [B1 B2].
    change (scan_lines ?s (h2 :: ?l)) with (scan_lines (scan_line s h2) l).
    assert (Hi : in_abs (scan_line (scan_lines st1 body) h2) = false).
    { rewrite scan_line_in_abs by exact Hn2. now rewrite B1, Hh2. }
    destruct (@scan_outside post _ Hi Hpost) as [Q1 Q2].
    rewrite Q2, scan_line_abs_buf, Hi, B2 by exact Hn2.
    unfold st1; cbn [abs_buf]. now rewrite P2.
  - intros Hno. unfold parse_sections_from_markdown; cbn [md_abstract].
    destruct (@scan_outside _ scan_init eq_refl Hno) as [_ ->].
    reflexivity.
Qed.

Lemma abstract_of_single_section_witness :
  md_abstract
    (parse_sections_from_markdown
       (py "# T" ++ [NL] ++ py "## Abstract" ++ [NL] ++ py "foo " ++ [NL] ++
        py " bar" ++ [NL] ++ py "## Intro" ++ [NL] ++ py "body"))
  = py "foo bar" /\
  md_abstract (parse_sections_from_markdown (py "# T" ++ [NL] ++ py "body"))
  = [].
Proof.
  split.
  - apply (proj1 (abstract_of_single_section _)
             [py "# T"] (py "## Abstract") [py "foo "; py " bar"]
             (py "## Intro") [py "body"]).
    + reflexivity.
    + reflexivity.
    + repeat constructor.
    + repeat constructor.
    + reflexivity.
  - apply (proj2 (abstract_of_single_section _)). repeat constructor.
Defined.

(** C4, as stated, fails: in a document with two abstract sections the first
    heading Abstract is followed by the one line foo and then by a heading,
    but the extracted abstract is "foo bar": the line of the second section
    is added to it. *)
Lemma abstract_of_two_sections :
  let md_text :=
    py "## Abstract" ++ [NL] ++ py "foo" ++ [NL] ++ py "## Intro" ++ [NL] ++
    py "## Abstract" ++ [NL] ++ py "bar" ++ [NL] ++ py "## End" in
  splitlines md_text
  = [] ++ py "## Abstract" :: [py "foo"] ++ py "## Intro"
       :: [py "## Abstract"; py "bar"; py "## End"] /\
  is_abstract_line (py "## Abstract") = true /\
  startswith (py "foo") (py "#") = false /\
  startswith (py "## Intro") (py "#") = true /\
  md_abstract (parse_sections_from_markdown md_text) = py "foo bar" /\
  md_abstract (parse_sections_from_markdown md_text)
  <> strip (join (py " ") (List.map strip [py "foo"])).
Proof.
  cbv zeta. repeat split; try (vm_compute; reflexivity).
  vm_compute. discriminate.
Qed.

(** ** Keywords *)

(** Once the keyword list is not empty, no line changes it. *)
Lemma scan_keywords_fixed ls :
  forall st, keywords st <> [] -> keywords (scan_lines st ls) = keywords st.
Proof.
  induction ls as [|l ls IH]; intros st Hk; [reflexivity|].
  change (scan_lines st (l :: ls)) with (scan_lines (scan_line st l) ls).
  assert (E : keywords (scan_line st l) = keywords st).
  { destruct (is_abstract_line l) eqn:Ha.
    - now rewrite scan_line_abstract.
    - rewrite scan_line_keywords by exact Ha.
      destruct (keywords_of_line l); [|reflexivity].
      destruct (keywords st); [now elim Hk | reflexivity]. }
  rewrite IH; rewrite E; [reflexivity | exact Hk].
Qed.

(** While the lines that match the keywords pattern give no keyword, the
    list stays empty. *)
Lemma scan_keywords_empty ls :
  forall st,
    keywords st = [] ->
    Forall (fun x => forall g, keywords_of_line x = Some g ->
                               split_keywords g = []) ls ->
    keywords (scan_lines st ls) = [].
Proof.
  induction ls as [|l ls IH]; intros st Hk Hls; [exact Hk|].
  inversion Hls as [|? ? Hl Hls']; subst.
  change (scan_lines st (l :: ls)) with (scan_lines (scan_line st l) ls).
  apply IH; [|exact Hls'].
  destruct (is_abstract_line l) eqn:Ha.
  - now rewrite scan_line_abstract.
  - rewrite scan_line_keywords by exact Ha.
    destruct (keywords_of_line l) as [g|]; [|exact Hk].
    rewrite Hk. now apply Hl.
Qed.

(** A line that matches the keywords pattern starts with a letter k or i (in
    some case); an abstract heading line starts with a hash sign. *)
Lemma key_line_first_char s g :
  key_group2 s = Some g ->
  exists c s', s = c :: s' /\
               (chr_i (ch "k") c = true \/ chr_i (ch "i") c = true).
Proof.
  unfold key_group2, match_group. intros H.
  apply exec_sound in H as (s1 & H & _).
  unfold key_before in H. apply cat_inv in H as (m & H & _).
  unfold key_label in H. apply alt_inv in H as [H|H].
  - change (lit_i (py "keywords"))
      with (Cat (Chr (chr_i (ch "k"))) (lit_i (py "eywords"))) in H.
    apply cat_inv in H as (m1 & H & _).
    apply chr_inv in H as (c & -> & Hc). eauto.
  - change (lit_i (py "index terms"))
      with (Cat (Chr (chr_i (ch "i"))) (lit_i (py "ndex terms"))) in H.
    apply cat_inv in H as (m1 & H & _).
    apply chr_inv in H as (c & -> & Hc). eauto.
Qed.

Lemma abs_line_first_char s :
  is_match abs_re s = true -> exists s', s = ch "#" :: s'.
Proof.
  unfold is_match. destruct (re_match abs_re s) as [rest|] eqn:E;
    [intros _ | discriminate].
  apply re_match_sound in E. unfold abs_re in E.
  apply cat_inv in E as (m & H & _). apply rep_inv in H.
  inversion H as [|lo hi c s0 s1 Hc _ _]; subst.
  apply N.eqb_eq in Hc. subst c. eauto.
Qed.

Lemma lstrip_app_last p c a :
  p c = false -> lstrip_by p (a ++ [c]) = lstrip_by p a ++ [c].
Proof.
  intros Hc. induction a as [|x a IH]; simpl.
  - now rewrite Hc.
  - destruct (p x); [exact IH | reflexivity].
Qed.

Lemma rstrip_cons p c s :
  p c = false -> rstrip_by p (c :: s) = c :: rstrip_by p s.
Proof.
  intros Hc. unfold rstrip_by. simpl rev.
  rewrite lstrip_app_last by exact Hc. now rewrite rev_unit.
Qed.

Lemma strip_cons p c s :
  p c = false -> strip_by p (c :: s) = c :: rstrip_by p s.
Proof.
  intros Hc. unfold strip_by. simpl. rewrite Hc. now apply rstrip_cons.
Qed.

(** A line that matches the keywords pattern is not an abstract heading line
    and does not start with a hash sign. *)
Lemma keywords_line_not_heading l g :
  keywords_of_line l = Some g ->
  is_abstract_line l = false /\ startswith l (py "#") = false.
Proof.
  unfold keywords_of_line, is_abstract_line. intros H.
  apply key_line_first_char in H as (c & s' & E & Hc).
  assert (Hne : c <> ch "#").
  { intros ->. destruct Hc as [Hc|Hc]; vm_compute in Hc; discriminate. }
  split.
  - destruct (is_match abs_re (strip l)) eqn:Ha; [|reflexivity].
    apply abs_line_first_char in Ha as (s'' & Ha). congruence.
  - destruct l as [|d l]; [reflexivity|].
    unfold startswith.
    change (strip_prefix (py "#") (d :: l))
      with (if ch "#" =? d then Some l else None).
    destruct (N.eqb_spec (ch "#") d) as [<-|]; [|reflexivity].
    unfold strip in E. rewrite strip_cons in E by reflexivity. congruence.
Qed.

(** C5, as the code has it: the keyword list comes from the first line that
    matches the keywords pattern and gives at least one keyword; the lines
    after it, matching or not, have no effect. *)
Theorem keywords_from_first_productive_line
    (md_text : pystr) (pre : list pystr) (l : pystr) (post : list pystr)
    (g : pystr) :
  splitlines md_text = pre ++ l :: post ->
  Forall (fun x => forall g', keywords_of_line x = Some g' ->
                              split_keywords g' = []) pre ->
  keywords_of_line l = Some g ->
  split_keywords g <> [] ->
  md_keywords (parse_sections_from_markdown md_text) = split_keywords g.
Proof.
  intros E Hpre Hl Hne.
  unfold parse_sections_from_markdown; cbn [md_keywords]. rewrite E.
  rewrite scan_lines_app.
  change (scan_lines ?s (l :: post)) with (scan_lines (scan_line s l) post).
  assert (K : keywords (scan_line (scan_lines scan_init pre) l)
              = split_keywords g).
  { rewrite scan_line_keywords by (apply (keywords_line_not_heading _ Hl)).
    rewrite Hl. now rewrite (@scan_keywords_empty pre scan_init eq_refl Hpre). }
  rewrite scan_keywords_fixed; rewrite K; [reflexivity | exact Hne].
Qed.

Lemma keywords_from_first_productive_line_witness :
  md_keywords
    (parse_sections_from_markdown
       (py "Keywords: ;" ++ [NL] ++ py "Index Terms - x and y, z" ++ [NL] ++
        py "Keywords: later"))
  = [py "x"; py "y"; py "z"].
Proof.
  apply (@keywords_from_first_productive_line _
           [py "Keywords: ;"] (py "Index Terms - x and y, z")
           [py "Keywords: later"] (py "x and y, z")).
  - reflexivity.
  - constructor; [|constructor]. intros g' H.
    vm_compute in H. injection H as <-. reflexivity.
  - reflexivity.
  - discriminate.
Defined.

(** C5, as stated, fails: two documents with the same first matching line,
    which gives no keyword, and different second matching lines have
    different keyword lists; the later line is used. *)
Lemma later_keywords_line_used :
  keywords_of_line (py "Keywords: ;") = Some (py ";") /\
  split_keywords (py ";") = [] /\
  md_keywords
    (parse_sections_from_markdown
       (py "Keywords: ;" ++ [NL] ++ py "Keywords: x")) = [py "x"] /\
  md_keywords
    (parse_sections_from_markdown
       (py "Keywords: ;" ++ [NL] ++ py "Keywords: y")) = [py "y"].
Proof. repeat split; vm_compute; reflexivity. Qed.

(** ** Trimming and joining *)

Lemma lstrip_head p s c r : lstrip_by p s = c :: r -> p c = false.
Proof.
  induction s as [|x s IH]; simpl; [discriminate|].
  destruct (p x) eqn:E; [exact IH|]. intros H. injection H as <- _. exact E.
Qed.

Lemma lstrip_suffix p s : exists w, s = w ++ lstrip_by p s.
Proof.
  induction s as [|x s (w & IH)]; simpl; [now exists []|].
  destruct (p x); [|now exists []].
  exists (x :: w). simpl. now f_equal.
Qed.

Lemma lstrip_keeps p c : forall P R,
  p c = false -> exists P', lstrip_by p (P ++ c :: R) = P' ++ c :: R.
Proof.
  induction P as [|x P IH]; intros R Hc; simpl.
  - exists []. now rewrite Hc.
  - destruct (p x); [now apply IH | now exists (x :: P)].
Qed.

Lemma rev_middle (A : Type) (a : list A) (d : A) (q : list A) :
  rev (a ++ d :: q) = rev q ++ d :: rev a.
Proof. rewrite rev_app_distr. simpl. now rewrite <- app_assoc. Qed.

(** The two ends of a trimmed text are not in the trimmed set. *)
Lemma strip_ends p l c x' :
  strip_by p l = c :: x' ->
  p c = false /\ exists y d, c :: x' = y ++ [d] /\ p d = false.
Proof.
  unfold strip_by, rstrip_by. intros H.
  destruct (lstrip_suffix p (rev (lstrip_by p l))) as (w & Hw).
  destruct (lstrip_by p (rev (lstrip_by p l))) as [|d z] eqn:Ez;
    [discriminate|].
  split.
  - apply (f_equal (@rev N)) in Hw.
    rewrite rev_involutive, rev_app_distr, H in Hw.
    simpl in Hw. now apply lstrip_head in Hw.
  - exists (rev z), d. split; [now rewrite <- H|].
    now apply lstrip_head in Ez.
Qed.

(** Trimming keeps a word whose two ends are not in the trimmed set. *)
Lemma strip_keeps_word p c x' y d P Q :
  c :: x' = y ++ [d] -> p c = false -> p d = false ->
  exists P' Q', strip_by p (P ++ (c :: x') ++ Q) = P' ++ (c :: x') ++ Q'.
Proof.
  intros E Hc Hd. unfold strip_by, rstrip_by.
  destruct (@lstrip_keeps p c P (x' ++ Q) Hc) as (P' & HP).
  change (P ++ (c :: x') ++ Q) with (P ++ c :: x' ++ Q). rewrite HP.
  change (P' ++ c :: x' ++ Q) with (P' ++ (c :: x') ++ Q).
  rewrite E.
  replace (P' ++ (y ++ [d]) ++ Q) with ((P' ++ y) ++ d :: Q)
    by (now rewrite <- !app_assoc).
  rewrite rev_middle.
  destruct (@lstrip_keeps p d (rev Q) (rev (P' ++ y)) Hd) as (Q' & HQ).
  rewrite HQ, rev_middle, rev_involutive.
  exists P', (rev Q'). now rewrite <- !app_assoc.
Qed.

Lemma join_occurs sep x : forall B1 B2,
  occurs x (join sep (B1 ++ x :: B2)).
Proof.
  induction B1 as [|b B1 IH]; intros B2.
  - destruct B2 as [|y B2]; simpl.
    + exists [], []. now rewrite app_nil_r.
    + now exists [], (sep ++ join sep (y :: B2)).
  - destruct (IH B2) as (P & Q & E).
    assert (J : join sep ((b :: B1) ++ x :: B2)
                = b ++ sep ++ join sep (B1 ++ x :: B2)).
    { destruct B1; reflexivity. }
    rewrite J, E. exists (b ++ sep ++ P), Q. now rewrite <- !app_assoc.
Qed.

(** The buffer only grows. *)
Lemma scan_abs_buf_grows ls :
  forall st, exists more, abs_buf (scan_lines st ls) = abs_buf st ++ more.
Proof.
  induction ls as [|l ls IH]; intros st.
  - exists []. now rewrite app_nil_r.
  - change (scan_lines st (l :: ls)) with (scan_lines (scan_line st l) ls).
    destruct (IH (scan_line st l)) as (more & ->).
    destruct (is_abstract_line l) eqn:Ha.
    + rewrite scan_line_abstract by exact Ha. now exists more.
    + rewrite scan_line_abs_buf by exact Ha.
      destruct (in_abs (scan_line st l)); [|now exists more].
      exists (strip l :: more). now rewrite <- app_assoc.
Qed.

(** Lines that do not start with a hash sign do not end the section. *)
Lemma scan_stays_inside ls :
  forall st,
    in_abs st = true ->
    Forall (fun l => startswith l (py "#") = false) ls ->
    in_abs (scan_lines st ls) = true.
Proof.
  induction ls as [|l ls IH]; intros st Hin Hls; [exact Hin|].
  inversion Hls as [|? ? Hl Hls']; subst.
  change (scan_lines st (l :: ls)) with (scan_lines (scan_line st l) ls).
  apply IH; [|exact Hls'].
  destruct (is_abstract_line l) eqn:Ha.
  - now rewrite scan_line_abstract.
  - rewrite scan_line_in_abs by exact Ha. now rewrite Hin, Hl.
Qed.

Lemma scan_keywords_untouched ls :
  forall st,
    Forall (fun x => keywords_of_line x = None) ls ->
    keywords (scan_lines st ls) = keywords st.
Proof.
  induction ls as [|l ls IH]; intros st Hls; [reflexivity|].
  inversion Hls as [|? ? Hl Hls']; subst.
  change (scan_lines st (l :: ls)) with (scan_lines (scan_line st l) ls).
  rewrite IH by exact Hls'.
  destruct (is_abstract_line l) eqn:Ha.
  - now rewrite scan_line_abstract.
  - rewrite scan_line_keywords by exact Ha. now rewrite Hl.
Qed.

(** The state of the loop right after the first line that matches the
    keywords pattern, when that line lies in an abstract section. *)
Lemma scan_to_keywords_line pre h body l g :
  is_abstract_line h = true ->
  Forall (fun x => startswith x (py "#") = false) body ->
  Forall (fun x => keywords_of_line x = None) pre ->
  Forall (fun x => keywords_of_line x = None) body ->
  keywords_of_line l = Some g ->
  let st := scan_lines scan_init (pre ++ h :: body ++ [l]) in
  (exists B, abs_buf st = B ++ [strip l]) /\ keywords st = split_keywords g.
Proof.
  intros Hh Hbody Kpre Kbody Hl st.
  destruct (keywords_line_not_heading _ Hl) as [La Ls].
  subst st. rewrite scan_lines_app.
  change (scan_lines ?s (h :: ?r)) with (scan_lines (scan_line s h) r).
  rewrite scan_line_abstract by exact Hh.
  rewrite scan_lines_app.
  set (st1 := Build_scan true _ _).
  change (scan_lines (scan_lines st1 body) [l])
    with (scan_line (scan_lines st1 body) l).
  assert (I2 : in_abs (scan_lines st1 body) = true)
    by (now apply scan_stays_inside).
  assert (I3 : in_abs (scan_line (scan_lines st1 body) l) = true).
  { rewrite scan_line_in_abs by exact La. now rewrite I2, Ls. }
  split.
  - exists (abs_buf (scan_lines st1 body)).
    rewrite scan_line_abs_buf by exact La. now rewrite I3.
  - rewrite scan_line_keywords, Hl by exact La.
    rewrite (scan_keywords_untouched st1 Kbody).
    unfold st1; cbn [keywords].
    now rewrite (scan_keywords_untouched scan_init Kpre).
Qed.

(** The keyword list at the end of the loop depends on the lines and on the
    keyword list at its start only. *)
Lemma scan_keywords_depend ls :
  forall st st',
    keywords st = keywords st' ->
    keywords (scan_lines st ls) = keywords (scan_lines st' ls).
Proof.
  induction ls as [|l ls IH]; intros st st' E; [exact E|].
  change (scan_lines ?s (l :: ls)) with (scan_lines (scan_line s l) ls).
  apply IH. destruct (is_abstract_line l) eqn:Ha.
  - now rewrite !scan_line_abstract.
  - rewrite !scan_line_keywords by exact Ha. now rewrite E.
Qed.

(** C10, as the code has it: when the first line that matches the keywords
    pattern comes after an abstract heading line, with no line starting
    with a hash sign between the two, the trimmed text of that line occurs
    in the extracted abstract (so the line itself does, if it has no white
    space at its ends), and the line is the source of the keywords whenever
    it gives at least one: the extracted list is then the list split from
    its rest.  When it gives none, the extracted list is the one of the
    lines that follow it. *)
Theorem keywords_line_in_abstract
    (md_text : pystr) (pre : list pystr) (h : pystr) (body : list pystr)
    (l : pystr) (post : list pystr) (g : pystr) :
  splitlines md_text = pre ++ h :: body ++ l :: post ->
  is_abstract_line h = true ->
  Forall (fun x => startswith x (py "#") = false) body ->
  Forall (fun x => keywords_of_line x = None) pre ->
  Forall (fun x => keywords_of_line x = None) body ->
  keywords_of_line l = Some g ->
  occurs (strip l) (md_abstract (parse_sections_from_markdown md_text)) /\
  (strip l = l ->
   occurs l (md_abstract (parse_sections_from_markdown md_text))) /\
  (split_keywords g <> [] ->
   md_keywords (parse_sections_from_markdown md_text) = split_keywords g) /\
  (split_keywords g = [] ->
   forall md_rest,
     splitlines md_rest = post ->
     md_keywords (parse_sections_from_markdown md_text)
     = md_keywords (parse_sections_from_markdown md_rest)).
Proof.
  intros E Hh Hbody Kpre Kbody Hl.
  destruct (@scan_to_keywords_line pre h body l g Hh Hbody Kpre Kbody Hl)
    as [(B & HB) HK].
  assert (E' : splitlines md_text = (pre ++ h :: body ++ [l]) ++ post).
  { rewrite E, <- app_assoc. simpl. now rewrite <- app_assoc. }
  assert (Ho : occurs (strip l)
                 (md_abstract (parse_sections_from_markdown md_text))).
  { unfold parse_sections_from_markdown; cbn [md_abstract].
    rewrite E', scan_lines_app.
    set (st := scan_lines scan_init (pre ++ h :: body ++ [l])) in *.
    destruct (@scan_abs_buf_grows post st) as (more & ->).
    rewrite HB, <- app_assoc. simpl app.
    destruct (@join_occurs (py " ") (strip l) B more) as (P & Q & ->).
    destruct (@key_line_first_char _ _ Hl) as (c & x' & Ex & _).
    fold (strip l) in Ex.
    destruct (@strip_ends _ _ _ _ Ex) as (Hc & y & d & Ey & Hd).
    rewrite Ex.
    destruct (@strip_keeps_word isspace c x' y d P Q Ey Hc Hd)
      as (P' & Q' & EE).
    exists P', Q'. exact EE. }
  split; [exact Ho|]. split; [intros El; now rewrite El in Ho|].
  unfold parse_sections_from_markdown; cbn [md_keywords].
  rewrite E', scan_lines_app.
  set (st := scan_lines scan_init (pre ++ h :: body ++ [l])) in *.
  split.
  - intros Hne. rewrite scan_keywords_fixed; rewrite HK;
      [reflexivity | exact Hne].
  - intros He md_rest ->. apply scan_keywords_depend.
    rewrite HK, He. reflexivity.
Qed.

Lemma keywords_line_in_abstract_witness :
  occurs (py "Keywords: x; y")
         (md_abstract
            (parse_sections_from_markdown
               (py "# T" ++ [NL] ++ py "## Abstract" ++ [NL] ++
                py "This is it." ++ [NL] ++ py "  Keywords: x; y" ++ [NL] ++
                py "## Intro" ++ [NL] ++ py "Body"))) /\
  md_keywords
    (parse_sections_from_markdown
       (py "# T" ++ [NL] ++ py "## Abstract" ++ [NL] ++
        py "This is it." ++ [NL] ++ py "  Keywords: x; y" ++ [NL] ++
        py "## Intro" ++ [NL] ++ py "Body"))
  = [py "x"; py "y"].
Proof.
  destruct (@keywords_line_in_abstract
              (py "# T" ++ [NL] ++ py "## Abstract" ++ [NL] ++
               py "This is it." ++ [NL] ++ py "  Keywords: x; y" ++ [NL] ++
               py "## Intro" ++ [NL] ++ py "Body")
              [py "# T"] (py "## Abstract") [py "This is it."]
              (py "  Keywords: x; y") [py "## Intro"; py "Body"] (py "x; y"))
    as (H1 & _ & H3 & _).
  - reflexivity.
  - reflexivity.
  - repeat constructor.
  - repeat constructor.
  - repeat constructor.
  - reflexivity.
  - split; [exact H1 | apply H3; discriminate].
Defined.

(** C10, as stated, fails.  In this document the first line that matches
    the keywords pattern lies between the abstract heading line and the
    next heading line; it is indented, and its rest holds a separator only.
    The abstract holds its trimmed text, not the line as it is written, and
    the keywords come from a later line, outside the abstract section. *)
Lemma keywords_line_neither_verbatim_nor_source :
  splitlines blank_keywords_markup
  = [py "## Abstract"; py "  Keywords: ;"; py "## Intro"; py "Keywords: x"] /\
  is_abstract_line (py "## Abstract") = true /\
  keywords_of_line (py "  Keywords: ;") = Some (py ";") /\
  md_abstract (parse_sections_from_markdown blank_keywords_markup)
  = py "Keywords: ;" /\
  ~ occurs (py "  Keywords: ;")
      (md_abstract (parse_sections_from_markdown blank_keywords_markup)) /\
  split_keywords (py ";") = [] /\
  md_keywords (parse_sections_from_markdown blank_keywords_markup)
  = [py "x"].
Proof.
  assert (Ea : md_abstract (parse_sections_from_markdown blank_keywords_markup)
               = py "Keywords: ;") by (vm_compute; reflexivity).
  split; [vm_compute; reflexivity|]. split; [vm_compute; reflexivity|].
  split; [vm_compute; reflexivity|]. split; [exact Ea|].
  split; [|split; vm_compute; reflexivity].
  rewrite Ea. intros (P & Q & E).
  apply (f_equal (@List.length N)) in E. rewrite !length_app in E.
  change (List.length (py "Keywords: ;")) with 11%nat in E.
  change (List.length (py "  Keywords: ;")) with 13%nat in E.
  lia.
Qed.

(** * Further properties of the code *)

(** ** Occurrences *)

Lemma strip_prefix_Some p : forall s r, strip_prefix p s = Some r -> s = p ++ r.
Proof.
  induction p as [|c p IH]; intros s r H; simpl in H.
  - now injection H as ->.
  - destruct s as [|d s]; [discriminate|].
    destruct (N.eqb_spec c d) as [->|]; [|discriminate].
    simpl. f_equal. now apply IH.
Qed.

Lemma occursb_complete w s : occurs w s -> occursb w s = true.
Proof.
  intros (pre & post & ->). induction pre as [|c pre IH].
  - simpl app. destruct (w ++ post) eqn:E; simpl;
      rewrite <- E, startswith_app; reflexivity.
  - simpl. rewrite IH. apply orb_true_r.
Qed.

Lemma occursb_sound w : forall s, occursb w s = true -> occurs w s.
Proof.
  induction s as [|c s IH]; simpl; intros H.
  - rewrite orb_false_r in H. unfold startswith in H.
    destruct (strip_prefix w []) eqn:E; [|discriminate].
    apply strip_prefix_Some in E. now exists [], p.
  - apply orb_true_iff in H as [H|H].
    + unfold startswith in H.
      destruct (strip_prefix w (c :: s)) eqn:E; [|discriminate].
      apply strip_prefix_Some in E. now exists [], p.
    + destruct (IH H) as (pre & post & ->). now exists (c :: pre), post.
Qed.

(** ** The Body Sanitizer *)

(** A text in which no backslash stands directly in front of an opening
    brace is returned by the sanitizer as it is. *)
Theorem sanitizer_keeps_unescaped_text (t : pystr) :
  occursb (py "\{") t = false ->
  strip_abstract_keywords_from_latex t = t.
Proof.
  intros H. apply sanitizer_needs_escaped_brace. intros Ho.
  apply occursb_complete in Ho. congruence.
Qed.

Lemma sanitizer_keeps_unescaped_text_witness :
  strip_abstract_keywords_from_latex
    (py "\section*{Keywords}" ++ [NL] ++ py "a, b" ++ [NL] ++
     py "\subsection{Index Terms}" ++ [NL] ++ py "c")
  = py "\section*{Keywords}" ++ [NL] ++ py "a, b" ++ [NL] ++
    py "\subsection{Index Terms}" ++ [NL] ++ py "c".
Proof. apply sanitizer_keeps_unescaped_text. reflexivity. Defined.

Lemma subsequence_refl a : subsequence a a.
Proof. induction a; now constructor. Qed.

Lemma subsequence_drop d : forall a b, subsequence a b -> subsequence a (d ++ b).
Proof. induction d as [|c d IH]; intros a b H; [exact H|]. simpl. constructor. now apply IH. Qed.

Lemma subsequence_trans b c :
  subsequence b c -> forall a, subsequence a b -> subsequence a c.
Proof.
  induction 1 as [|x b c H IH|x b c H IH]; intros a Ha.
  - exact Ha.
  - inversion Ha; subst.
    + constructor. now apply IH.
    + apply subseq_skip. now apply IH.
  - apply subseq_skip. now apply IH.
Qed.

Lemma cut_subsequence s out : cut s out -> subsequence out s.
Proof.
  induction 1 as [|c s out H IH|d s out H IH Ha].
  - constructor.
  - now constructor.
  - now apply subsequence_drop.
Qed.

(** The sanitizer only removes text: its output is its input with some
    characters left out, in the same order. *)
Theorem sanitizer_only_removes (t : pystr) :
  subsequence (strip_abstract_keywords_from_latex t) t.
Proof.
  unfold strip_abstract_keywords_from_latex.
  apply subsequence_trans with (b := re_sub_empty abstract_section_re t).
  - apply cut_subsequence.
    exact (@sub_cut abstract_section_re abstract_match_shape _ t (le_n _)).
  - apply cut_subsequence.
    exact (@sub_cut keywords_section_re keywords_match_shape _ _ (le_n _)).
Qed.

Lemma sub_plain_prefix r :
  (forall u rest, re_match r u = Some rest ->
                  exists d, u = BSL :: d ++ rest /\ after_cut rest) ->
  forall p u,
    forallb (fun c => negb (c =? BSL)) p = true ->
    re_sub_empty r (p ++ u) = p ++ re_sub_empty r u.
Proof.
  intros Hshape p u. induction p as [|c p IH]; intros Hp; [reflexivity|].
  simpl in Hp. apply andb_true_iff in Hp as [Hc Hp].
  apply negb_true_iff, N.eqb_neq in Hc.
  simpl app. rewrite sub_no_match.
  - now rewrite IH.
  - now apply (@no_match_unless_backslash r Hshape).
Qed.

(** Text without a backslash in front of a document passes through the
    sanitizer untouched and does not change what happens to the rest. *)
Theorem sanitizer_passes_plain_prefix (p u : pystr) :
  forallb (fun c => negb (c =? BSL)) p = true ->
  strip_abstract_keywords_from_latex (p ++ u)
  = p ++ strip_abstract_keywords_from_latex u.
Proof.
  intros Hp. unfold strip_abstract_keywords_from_latex.
  rewrite (@sub_plain_prefix _ abstract_match_shape p u Hp).
  now rewrite (@sub_plain_prefix _ keywords_match_shape p _ Hp).
Qed.

Lemma sanitizer_passes_plain_prefix_witness :
  strip_abstract_keywords_from_latex
    (py "Intro text. " ++ py "\section\{Abstract\} gone" ++ [NL])
  = py "Intro text. " ++ [NL].
Proof.
  rewrite (@sanitizer_passes_plain_prefix (py "Intro text. ")
             (py "\section\{Abstract\} gone" ++ [NL]) eq_refl).
  reflexivity.
Defined.

Lemma sanitizer_match_free t :
  match_free abstract_section_re (strip_abstract_keywords_from_latex t) /\
  match_free keywords_section_re (strip_abstract_keywords_from_latex t).
Proof.
  unfold strip_abstract_keywords_from_latex.
  set (t1 := re_sub_empty abstract_section_re t).
  assert (F1 : match_free abstract_section_re t1).
  { exact (@sub_leaves_no_match abstract_section_re abstract_match_shape
             abstract_match_reflects _ t (le_n _)). }
  assert (C2 : cut t1 (re_sub_empty keywords_section_re t1)).
  { exact (@sub_cut keywords_section_re keywords_match_shape _ t1 (le_n _)). }
  split.
  - exact (@cut_keeps_match_free abstract_section_re abstract_match_shape
             abstract_match_reflects _ _ C2 F1).
  - exact (@sub_leaves_no_match keywords_section_re keywords_match_shape
             keywords_match_reflects _ t1 (le_n _)).
Qed.

(** After the sanitizer no heading that its patterns accept is left: the
    output contains no escaped abstract heading, and no escaped keywords
    heading that is followed by a backslash and a closing brace. *)
Theorem sanitizer_leaves_no_heading (t bs : pystr) (a : N) :
  all_backslashes bs ->
  (mem a [ch "A"; ch "a"] = true ->
   ~ occurs (abstract_heading bs a) (strip_abstract_keywords_from_latex t)) /\
  (mem a [ch "K"; ch "k"] = true ->
   forall x, ~ occurs (keywords_heading bs a ++ x ++ py "\}")
                      (strip_abstract_keywords_from_latex t)).
Proof.
  intros Hbs. destruct (sanitizer_match_free t) as [FA FK]. split.
  - intros Ha (pre & post & E).
    apply (@re_match_complete abstract_section_re
             (abstract_heading bs a ++ post) []).
    + exact (@abstract_section_intro bs a post Hbs Ha).
    + exact (FA pre _ E).
  - intros Ha x (pre & post & E).
    apply (@re_match_complete keywords_section_re
             (keywords_heading bs a ++ (x ++ py "\}" ++ post)) []).
    + apply (@keywords_section_intro bs a _ Hbs Ha). now exists x, post.
    + apply (FK pre). rewrite E. now rewrite <- !app_assoc.
Qed.

Lemma sanitizer_leaves_no_heading_witness :
  ~ occurs (py "\section\{Abstract\}")
      (strip_abstract_keywords_from_latex
         (py "\section\{Keywords\}k\section\{Abstract\}a\section\{Intro\}")).
Proof.
  apply (proj1 (@sanitizer_leaves_no_heading _ [] (ch "A") (Forall_nil _))).
  reflexivity.
Defined.

(** ** More on trimming, lines and splitting *)

Lemma lstrip_In p c s : In c (lstrip_by p s) -> In c s.
Proof.
  destruct (lstrip_suffix p s) as (w & E). intros H.
  rewrite E. apply in_or_app. now right.
Qed.

Lemma strip_by_In p c s : In c (strip_by p s) -> In c s.
Proof.
  unfold strip_by, rstrip_by. intros H.
  apply in_rev, lstrip_In in H. apply in_rev in H. now apply lstrip_In in H.
Qed.

Lemma lstrip_blank p s : forallb p s = true -> lstrip_by p s = [].
Proof.
  induction s as [|c s IH]; simpl; [reflexivity|].
  intros H. apply andb_true_iff in H as [-> H]. now apply IH.
Qed.

Lemma strip_blank p s : forallb p s = true -> strip_by p s = [].
Proof.
  intros H. unfold strip_by. now rewrite (lstrip_blank _ _ H).
Qed.

(** A text whose two ends are not in the trimmed set is its own trimming. *)
Lemma strip_fixed p c x' y d :
  c :: x' = y ++ [d] -> p c = false -> p d = false ->
  strip_by p (c :: x') = c :: x'.
Proof.
  intros E Hc Hd. unfold strip_by, rstrip_by. simpl lstrip_by. rewrite Hc.
  rewrite E, rev_unit. simpl lstrip_by. rewrite Hd.
  now rewrite <- (rev_unit y d), rev_involutive.
Qed.

Lemma strip_idempotent p s : strip_by p (strip_by p s) = strip_by p s.
Proof.
  destruct (strip_by p s) as [|c x'] eqn:E; [reflexivity|].
  destruct (@strip_ends p s c x' E) as (Hc & y & d & Ey & Hd).
  now apply (@strip_fixed p c x' y d).
Qed.

(** No line of [splitlines] holds a line boundary. *)
Lemma splitlines_from_no_break n :
  forall s cur,
    (List.length s <= n)%nat ->
    Forall (fun c => is_linebreak c = false) cur ->
    Forall (Forall (fun c => is_linebreak c = false)) (splitlines_from cur s).
Proof.
  assert (Hrev : forall cur, Forall (fun c => is_linebreak c = false) cur ->
                             Forall (fun c => is_linebreak c = false) (rev cur)).
  { intros cur H. apply Forall_forall. intros c Hc. apply in_rev in Hc.
    revert c Hc. now apply Forall_forall. }
  assert (Hnil : Forall (fun c : N => is_linebreak c = false) [])
    by constructor.
  induction n as [|n IH]; intros s cur Hn Hcur.
  - destruct s; [|simpl in Hn; lia]. simpl.
    destruct cur; constructor; [now apply Hrev | constructor].
  - destruct s as [|c s]; simpl.
    { destruct cur; constructor; [now apply Hrev | constructor]. }
    simpl in Hn.
    destruct (c =? 13).
    + destruct s as [|d s'].
      * constructor; [now apply Hrev|]. apply IH; [simpl; lia | exact Hnil].
      * simpl in Hn.
        destruct (d =? 10); (constructor; [now apply Hrev|]);
          (apply IH; [simpl; lia | exact Hnil]).
    + destruct (is_linebreak c) eqn:E.
      * constructor; [now apply Hrev|]. apply IH; [lia | exact Hnil].
      * apply IH; [lia | now constructor].
Qed.

Lemma splitlines_no_break s :
  Forall (Forall (fun c => is_linebreak c = false)) (splitlines s).
Proof.
  apply (@splitlines_from_no_break (List.length s)); [apply le_n | constructor].
Qed.

Lemma matches_length r s s' :
  matches r s s' -> (List.length s' <= List.length s)%nat.
Proof.
  induction 1 as [| | | | |g lo hi p s s' H| |]; simpl; try lia.
  apply reps_inv in H as (w & -> & _). rewrite length_app. lia.
Qed.

Lemma matches_suffix r s s' : matches r s s' -> exists w, s = w ++ s'.
Proof.
  induction 1 as [s|p c s Hc|a b s1 s2 s3 _ (w1 & ->) _ (w2 & ->)
                  |a b s s' _ IH|a b s s' _ IH|g lo hi p s s' H|s H|a s s' _ _].
  - now exists [].
  - now exists [c].
  - exists (w1 ++ w2). now rewrite app_assoc.
  - exact IH.
  - exact IH.
  - apply reps_inv in H as (w & -> & _). now exists w.
  - now exists [].
  - now exists [].
Qed.

(** Pieces of [re.split] never hold a character at which the separator
    always matches. *)
Section Split_pieces.

Variable r : regex.
Variable q : N -> bool.

Hypothesis separator_taken : forall c s,
  q c = true ->
  exists rest, re_match r (c :: s) = Some rest /\
               (List.length rest <= List.length s)%nat.

Lemma split_from_avoids s :
  forall skip cur,
    Forall (fun c => q c = false) cur ->
    Forall (Forall (fun c => q c = false)) (split_from r skip cur s).
Proof.
  assert (Hrev : forall cur, Forall (fun c => q c = false) cur ->
                             Forall (fun c => q c = false) (rev cur)).
  { intros cur H. apply Forall_forall. intros c Hc. apply in_rev in Hc.
    revert c Hc. now apply Forall_forall. }
  induction s as [|c s IH]; intros skip cur Hcur; simpl.
  - constructor; [now apply Hrev | constructor].
  - destruct skip as [|n]; [|now apply IH].
    destruct (q c) eqn:Hq.
    + destruct (separator_taken s Hq) as (rest & -> & Hl).
      destruct (List.length rest) as [|m] eqn:El.
      * constructor; [now apply Hrev|]. apply IH. constructor.
      * replace (List.length s - m)%nat with (S (List.length s - S m))%nat
          by lia.
        constructor; [now apply Hrev|]. apply IH. constructor.
    + assert (Hc : Forall (fun c => q c = false) (c :: cur))
        by now constructor.
      destruct (re_match r (c :: s)) as [rest|]; [|now apply IH].
      destruct (match List.length rest with
                | O => S (List.length s)
                | S l => (List.length s - l)%nat
                end); [now apply IH|].
      constructor; [now apply Hrev|]. apply IH. constructor.
Qed.

Lemma re_split_avoids s :
  Forall (Forall (fun c => q c = false)) (re_split r s).
Proof. apply split_from_avoids. constructor. Qed.

End Split_pieces.

(** ** The Metadata Extractor *)

Lemma kw_split_takes_separator c s :
  is_separator c = true ->
  exists rest, re_match kw_split_re (c :: s) = Some rest /\
               (List.length rest <= List.length s)%nat.
Proof.
  intros Hc.
  destruct (re_match kw_split_re (c :: s)) as [rest|] eqn:E.
  - exists rest. split; [reflexivity|].
    apply re_match_sound in E. unfold kw_split_re in E.
    apply alt_inv in E as [E|E].
    + apply cat_inv in E as (m & H1 & H2).
      apply chr_inv in H1 as (c' & H1 & _). injection H1 as _ <-.
      now apply matches_length in H2.
    + apply cat_inv in E as (m1 & H1 & E).
      apply cat_inv in E as (m2 & H2 & E).
      apply matches_length in H1, E. apply rep_inv in H2.
      inversion H2 as [|lo hi c' s0 s1 _ _ H3]; subst.
      apply reps_inv in H3 as (w & -> & _).
      simpl in H1. rewrite length_app in H1. lia.
  - exfalso. apply (@re_match_complete kw_split_re (c :: s) s); [|exact E].
    unfold kw_split_re. apply M_alt_l. eapply M_cat.
    + constructor. exact Hc.
    + constructor. constructor.
Qed.

Lemma split_keywords_no_separator g :
  Forall (Forall (fun c => is_separator c = false)) (split_keywords g).
Proof.
  unfold split_keywords. apply Forall_forall. intros k Hk.
  apply in_map_iff in Hk as (k0 & <- & Hk0).
  apply filter_In in Hk0 as [Hk0 _].
  pose proof (re_split_avoids kw_split_re is_separator
                kw_split_takes_separator g) as H.
  rewrite Forall_forall in H. specialize (H _ Hk0).
  apply Forall_forall. intros c Hc. apply strip_by_In in Hc.
  revert c Hc. now apply Forall_forall.
Qed.

Lemma scan_keywords_invariant (P : list pystr -> Prop) ls :
  (forall g, P (split_keywords g)) ->
  forall st, P (keywords st) -> P (keywords (scan_lines st ls)).
Proof.
  intros HP. induction ls as [|l ls IH]; intros st Hst; [exact Hst|].
  change (scan_lines st (l :: ls)) with (scan_lines (scan_line st l) ls).
  apply IH. destruct (is_abstract_line l) eqn:Ha.
  - now rewrite scan_line_abstract.
  - rewrite scan_line_keywords by exact Ha.
    destruct (keywords_of_line l); [|exact Hst].
    destruct (keywords st); [apply HP | exact Hst].
Qed.






Lemma md_keywords_no_separator md_text :
  Forall (Forall (fun c => is_separator c = false))
         (md_keywords (parse_sections_from_markdown md_text)).
Proof.
  unfold parse_sections_from_markdown; cbn [md_keywords].
  apply (@scan_keywords_invariant
           (Forall (Forall (fun c => is_separator c = false)))).
  - exact split_keywords_no_separator.
  - constructor.
Qed.


(** A document in which no line matches the keywords pattern has no
    keywords. *)
Theorem no_keywords_line_no_keywords (md_text : pystr) :
  Forall (fun x => keywords_of_line x = None) (splitlines md_text) ->
  md_keywords (parse_sections_from_markdown md_text) = [].
Proof.
  intros H. unfold parse_sections_from_markdown; cbn [md_keywords].
  now rewrite (@scan_keywords_untouched _ scan_init H).
Qed.

Lemma no_keywords_line_no_keywords_witness :
  md_keywords
    (parse_sections_from_markdown
       (py "# T" ++ [NL] ++ py "Keywords a, b" ++ [NL] ++ py "and keywords: c"))
  = [].
Proof. apply no_keywords_line_no_keywords. repeat constructor. Defined.

Lemma find_title_first pre :
  forall l post,
    Forall (fun x => startswith x (py "# ") = false) pre ->
    startswith l (py "# ") = true ->
    find_title (pre ++ l :: post) = strip (skipn 2 l).
Proof.
  induction pre as [|x pre IH]; intros l post Hpre Hl; simpl.
  - now rewrite Hl.
  - inversion Hpre as [|? ? Hx Hpre']; subst. rewrite Hx. now apply IH.
Qed.

Lemma find_title_none lines :
  Forall (fun x => startswith x (py "# ") = false) lines ->
  find_title lines = [].
Proof.
  induction 1 as [|x lines Hx _ IH]; simpl; [reflexivity|]. now rewrite Hx.
Qed.

(** The title is the trimmed rest of the first line that starts with a hash
    sign and a blank, whatever comes after that line; without such a line
    the title is empty. *)
Theorem title_is_first_level1_heading (md_text : pystr) :
  (forall pre rest post,
     splitlines md_text = pre ++ (py "# " ++ rest) :: post ->
     Forall (fun x => startswith x (py "# ") = false) pre ->
     md_title (parse_sections_from_markdown md_text) = strip rest) /\
  (Forall (fun x => startswith x (py "# ") = false) (splitlines md_text) ->
   md_title (parse_sections_from_markdown md_text) = []).
Proof.
  split.
  - intros pre rest post E Hpre.
    unfold parse_sections_from_markdown; cbn [md_title]. rewrite E.
    rewrite find_title_first; [reflexivity | exact Hpre |].
    apply (startswith_app (py "# ") rest).
  - intros H. unfold parse_sections_from_markdown; cbn [md_title].
    now apply find_title_none.
Qed.

Lemma title_is_first_level1_heading_witness :
  md_title
    (parse_sections_from_markdown
       (py "## Sub" ++ [NL] ++ py "#  First  " ++ [NL] ++ py "# Second"))
  = py "First" /\
  md_title (parse_sections_from_markdown (py "#No blank" ++ [NL] ++ py " # x"))
  = [].
Proof.
  split.
  - apply (proj1 (title_is_first_level1_heading _)
             [py "## Sub"] (py " First  ") [py "# Second"]).
    + reflexivity.
    + repeat constructor.
  - apply (proj2 (title_is_first_level1_heading _)). repeat constructor.
Defined.

Lemma collect_possible_invariant (P : pystr -> Prop) lines :
  Forall (fun ln => P (strip ln)) lines ->
  forall possible, Forall P possible ->
                   Forall P (collect_possible possible lines).
Proof.
  induction 1 as [|ln lines Hln _ IH]; intros possible Hp; simpl;
    [exact Hp|].
  destruct (startswith ln (py "#") || is_match abs_re ln || is_match key_re ln);
    [now apply IH|].
  destruct (re_search marker_re ln); [|now apply IH].
  apply IH. apply Forall_app. split; [exact Hp | now repeat constructor].
Qed.

Lemma no_break_no_newline l :
  Forall (fun c => is_linebreak c = false) l -> count_occ N.eq_dec l NL = 0%nat.
Proof.
  intros H. apply count_occ_not_In. intros Hin.
  rewrite Forall_forall in H. specialize (H _ Hin). discriminate.
Qed.

Lemma join_newline_count ls :
  Forall (fun l => count_occ N.eq_dec l NL = 0%nat) ls ->
  count_occ N.eq_dec (join [NL] ls) NL = pred (List.length ls).
Proof.
  induction 1 as [|l ls Hl Hls IH]; [reflexivity|].
  destruct ls as [|l' ls]; [exact Hl|].
  change (join [NL] (l :: l' :: ls)) with (l ++ [NL] ++ join [NL] (l' :: ls)).
  rewrite !count_occ_app, Hl, IH. reflexivity.
Qed.

(** The raw author text has at most four lines: it holds at most three
    newlines, however many lines of the document carry a marker. *)
Theorem authors_raw_has_at_most_four_lines (md_text : pystr) :
  (count_occ N.eq_dec (md_authors_raw (parse_sections_from_markdown md_text))
             NL <= 3)%nat.
Proof.
  unfold parse_sections_from_markdown; cbn [md_authors_raw].
  set (possible := collect_possible [] (firstn 20 (splitlines md_text))).
  assert (H : Forall (fun l => count_occ N.eq_dec l NL = 0%nat) possible).
  { apply collect_possible_invariant; [|constructor].
    apply Forall_forall. intros ln Hln. apply no_break_no_newline.
    apply Forall_forall. intros c Hc. apply strip_by_In in Hc.
    pose proof (splitlines_no_break md_text) as Hs.
    rewrite Forall_forall in Hs.
    assert (Hl : In ln (splitlines md_text)).
    { rewrite <- (firstn_skipn 20). apply in_or_app. now left. }
    specialize (Hs _ Hl). rewrite Forall_forall in Hs. now apply Hs. }
  rewrite join_newline_count.
  - apply (Nat.pred_le_mono _ 4). apply firstn_le_length.
  - apply Forall_forall. intros l Hl. rewrite Forall_forall in H. apply H.
    rewrite <- (firstn_skipn 4 possible). apply in_or_app. now left.
Qed.

(** ** The Author Block Parser *)

Lemma consumed_app w rest : consumed (w ++ rest) rest = w.
Proof.
  unfold consumed. rewrite length_app.
  replace (List.length w + List.length rest - List.length rest)%nat
    with (List.length w + 0)%nat by lia.
  rewrite firstn_app_2. simpl. apply app_nil_r.
Qed.

Lemma re_match_consumed r s rest :
  re_match r s = Some rest ->
  s = consumed s rest ++ rest /\ matches r s rest.
Proof.
  intros E. apply re_match_sound in E. split; [|exact E].
  destruct (matches_suffix E) as (w & ->). now rewrite consumed_app.
Qed.

(** What [re.search] returns is a match, somewhere in the text. *)
Lemma re_search_sound r s :
  forall m rest,
    re_search r s = Some (m, rest) ->
    exists pre, s = pre ++ m ++ rest /\ matches r (m ++ rest) rest.
Proof.
  assert (Hhere : forall s m rest rest',
             re_match r s = Some rest' ->
             Some (consumed s rest', rest') = Some (m, rest) ->
             exists pre, s = pre ++ m ++ rest /\ matches r (m ++ rest) rest).
  { intros s0 m rest rest' E H. injection H as <- <-.
    apply re_match_consumed in E as [E1 E2].
    exists []. split; [exact E1 | now rewrite <- E1]. }
  induction s as [|c s IH]; intros m rest H; simpl in H.
  - destruct (re_match r []) as [rest'|] eqn:E; [|discriminate].
    now apply (Hhere _ _ _ _ E).
  - destruct (re_match r (c :: s)) as [rest'|] eqn:E.
    + now apply (Hhere _ _ _ _ E).
    + destruct (IH _ _ H) as (pre & -> & Hm). now exists (c :: pre).
Qed.

Lemma reps_plus_inv p s s' :
  reps p 1 None s s' ->
  exists c w, s = c :: w ++ s' /\ p c = true /\
              Forall (fun x => p x = true) w.
Proof.
  intros H. inversion H as [|lo hi c s0 s1 Hc _ H']; subst.
  apply reps_inv in H' as (w & -> & Hw). now exists c, w.
Qed.

(** A match of the e-mail pattern starts with a character of its class,
    holds an at sign, and ends with the letter w. *)
Lemma email_match_shape m rest :
  matches email_re (m ++ rest) rest ->
  exists c x y, m = c :: x /\ email_class c = true /\
                m = y ++ [ch "w"] /\ In (ch "@") m.
Proof.
  unfold email_re, plus. intros H.
  apply cat_inv in H as (m1 & H1 & H).
  apply cat_inv in H as (m2 & H2 & H).
  apply cat_inv in H as (m3 & H3 & H).
  apply cat_inv in H as (m4 & H4 & H).
  apply cat_inv in H as (m5 & H5 & H).
  apply cat_inv in H as (m6 & H6 & H).
  apply rep_inv, reps_plus_inv in H1 as (c & w1 & E1 & Hc & _).
  apply chr_inv in H2 as (a & -> & Ha). apply N.eqb_eq in Ha. subst a.
  apply rep_inv, reps_plus_inv in H3 as (c3 & w3 & -> & _ & _).
  apply chr_inv in H4 as (b1 & -> & _).
  apply chr_inv in H5 as (b2 & -> & _).
  apply chr_inv in H6 as (b3 & -> & _).
  apply rep_inv, reps_plus_inv in H as (c7 & w7 & -> & Hc7 & Hw7).
  set (body := c :: w1 ++ ch "@" :: c3 :: w3 ++ b1 :: b2 :: b3 :: c7 :: w7).
  assert (Em : m = body).
  { apply (app_inv_tail rest). rewrite E1. unfold body.
    simpl. repeat (rewrite <- ?app_assoc, <- ?app_comm_cons). reflexivity. }
  assert (Hlast : exists y, c7 :: w7 = y ++ [ch "w"]).
  { destruct (@exists_last _ (c7 :: w7)) as (y & d & Ey); [discriminate|].
    exists y. rewrite Ey. do 2 f_equal.
    assert (Hd : In d (c7 :: w7)) by (rewrite Ey; apply in_or_app; right; now left).
    assert (Hall : Forall (fun x => is_chr (ch "w") x = true) (c7 :: w7))
      by now constructor.
    rewrite Forall_forall in Hall. now apply N.eqb_eq, Hall. }
  destruct Hlast as (y & Ey).
  exists c, (w1 ++ ch "@" :: c3 :: w3 ++ b1 :: b2 :: b3 :: c7 :: w7),
    (c :: w1 ++ ch "@" :: c3 :: w3 ++ b1 :: b2 :: b3 :: y).
  rewrite Em. unfold body. repeat split.
  - exact Hc.
  - rewrite Ey. simpl. repeat (rewrite <- ?app_assoc, <- ?app_comm_cons).
    reflexivity.
  - right. apply in_or_app. right. now left.
Qed.

Lemma before_first_excludes c s : ~ In c (before_first c s).
Proof.
  induction s as [|d s IH]; simpl; [tauto|].
  destruct (N.eqb_spec d c); [tauto|]. simpl. intros [H|H]; [congruence|tauto].
Qed.

(** The record built from one chunk. *)
Lemma chunk_record_parsed chunk (email : option (pystr * pystr)) :
  email = re_search email_re chunk ->
  parsed_author
    (Build_author (strip (before_first (ch ",") chunk)) (strip chunk) [] []
       (match (match email with Some (m, _) => Some m | None => None end) with
        | Some e => py_or e []
        | None => []
        end)).
Proof.
  intros He. unfold parsed_author; cbn [organization city_country name
                                        affiliation email_or_orcid].
  split; [reflexivity|]. split; [reflexivity|].
  split; [intros H; apply strip_by_In in H;
          now apply before_first_excludes in H|].
  split; [apply strip_idempotent|]. split; [apply strip_idempotent|].
  destruct email as [[m rest]|]; [|split; [reflexivity | now left]].
  symmetry in He. apply re_search_sound in He as (pre & E & Hm).
  apply email_match_shape in Hm as (c & x & y & Ec & Hc & Ey & Hat).
  assert (Hsp : isspace c = false).
  { apply mem_In in Hc. simpl in Hc.
    destruct Hc as [<-|[<-|[<-|[<-|[<-|[]]]]]]; reflexivity. }
  assert (Ey' : c :: x = y ++ [ch "w"]) by now rewrite <- Ec.
  unfold py_or. rewrite Ec. cbn [truthy]. rewrite <- Ec.
  split.
  - rewrite Ec. apply (@strip_fixed isspace c x y (ch "w") Ey' Hsp eq_refl).
  - right. split; [exact Hat|].
    rewrite E, Ec.
    destruct (@strip_keeps_word isspace c x y (ch "w") pre rest Ey' Hsp eq_refl)
      as (P' & Q' & EE).
    exists P', Q'. exact EE.
Qed.

Lemma authors_loop_parsed chunks :
  forall authors,
    Forall parsed_author authors ->
    Forall parsed_author (authors_loop authors chunks).
Proof.
  induction chunks as [|chunk chunks IH]; intros authors Ha; simpl;
    [exact Ha|].
  destruct (negb (truthy (strip chunk))); [now apply IH|].
  apply IH. apply Forall_app. split; [exact Ha|].
  constructor; [|constructor].
  now apply (@chunk_record_parsed chunk (re_search email_re chunk)).
Qed.

Lemma split_authors_blocks_parsed authors_raw :
  Forall parsed_author (split_authors_blocks authors_raw).
Proof.
  unfold split_authors_blocks.
  pose proof (@authors_loop_parsed
                (re_split chunk_split_re (strip authors_raw)) [] (Forall_nil _))
    as H.
  destruct (authors_loop [] _) as [|a l]; [|exact H].
  constructor; [|constructor].
  unfold parsed_author; simpl. repeat split; auto.
Qed.

(** The Author Block Parser always returns at least one record.  In every
    record the organization and the city are empty, the name holds no comma,
    name, affiliation and e-mail are trimmed, and the e-mail field is empty
    or a part of the affiliation with an at sign in it.  A blank raw text
    gives exactly one record, with every field empty. *)
Theorem split_authors_blocks_records (authors_raw : pystr) :
  split_authors_blocks authors_raw <> [] /\
  Forall parsed_author (split_authors_blocks authors_raw) /\
  (strip authors_raw = [] -> split_authors_blocks authors_raw = [empty_author]).
Proof.
  split; [|split].
  - unfold split_authors_blocks. destruct (authors_loop [] _); discriminate.
  - apply split_authors_blocks_parsed.
  - unfold split_authors_blocks. now intros ->.
Qed.

Lemma split_authors_blocks_records_witness :
  split_authors_blocks ([NL] ++ py "  " ++ [NL]) = [empty_author].
Proof.
  apply (proj2 (proj2 (split_authors_blocks_records _))). reflexivity.
Defined.

(** ** Keywords of the submitted form *)

Lemma form_split_match c s :
  re_match form_kw_split_re (c :: s)
  = if is_separator c then Some s else None.
Proof. reflexivity. Qed.

Lemma form_split_takes_separator c s :
  is_separator c = true ->
  exists rest, re_match form_kw_split_re (c :: s) = Some rest /\
               (List.length rest <= List.length s)%nat.
Proof.
  intros Hc. exists s. split; [|apply le_n].
  rewrite form_split_match. now rewrite Hc.
Qed.

(** Every keyword handed to the template is non-empty, trimmed, and holds
    no semicolon and no comma. *)
Theorem form_keywords_clean (form : form_data) :
  Forall (fun k => k <> [] /\ strip k = k /\
                   Forall (fun c => is_separator c = false) k)
         (form_keywords form).
Proof.
  unfold form_keywords. apply Forall_forall. intros k Hk.
  apply in_map_iff in Hk as (k0 & <- & Hk0).
  apply filter_In in Hk0 as [Hk0 Ht].
  split; [|split].
  - destruct (strip k0); [discriminate | discriminate].
  - apply strip_idempotent.
  - pose proof (re_split_avoids form_kw_split_re is_separator
                  form_split_takes_separator
                  (form_get form (py "keywords") [])) as H.
    rewrite Forall_forall in H. specialize (H _ Hk0).
    apply Forall_forall. intros c Hc. apply strip_by_In in Hc.
    revert c Hc. now apply Forall_forall.
Qed.

Lemma form_split_plain k :
  Forall (fun c => is_separator c = false) k ->
  forall cur, split_from form_kw_split_re 0 cur k = [rev cur ++ k].
Proof.
  induction 1 as [|c k Hc _ IH]; intros cur; simpl.
  - now rewrite app_nil_r.
  - rewrite form_split_match, Hc.
    rewrite IH. simpl. now rewrite <- app_assoc.
Qed.

Lemma form_split_at_separator k :
  Forall (fun c => is_separator c = false) k ->
  forall cur c s,
    is_separator c = true ->
    split_from form_kw_split_re 0 cur (k ++ c :: s)
    = (rev cur ++ k) :: split_from form_kw_split_re 0 [] s.
Proof.
  induction 1 as [|d k Hd _ IH]; intros cur c s Hc.
  - simpl app. rewrite app_nil_r.
    change (split_from form_kw_split_re 0 cur (c :: s))
      with (match re_match form_kw_split_re (c :: s) with
            | Some rest =>
                match (List.length (c :: s) - List.length rest)%nat with
                | O => split_from form_kw_split_re 0 (c :: cur) s
                | S n => rev cur :: split_from form_kw_split_re n [] s
                end
            | None => split_from form_kw_split_re 0 (c :: cur) s
            end).
    assert (E : re_match form_kw_split_re (c :: s) = Some s).
    { rewrite form_split_match. now rewrite Hc. }
    rewrite E.
    replace (List.length (c :: s) - List.length s)%nat with 1%nat
      by (change (List.length (c :: s)) with (S (List.length s)); lia).
    reflexivity.
  - simpl app.
    change (split_from form_kw_split_re 0 cur (d :: k ++ c :: s))
      with (match re_match form_kw_split_re (d :: k ++ c :: s) with
            | Some rest =>
                match (List.length (d :: k ++ c :: s) - List.length rest)%nat with
                | O => split_from form_kw_split_re 0 (d :: cur) (k ++ c :: s)
                | S n => rev cur :: split_from form_kw_split_re n [] (k ++ c :: s)
                end
            | None => split_from form_kw_split_re 0 (d :: cur) (k ++ c :: s)
            end).
    assert (E : re_match form_kw_split_re (d :: k ++ c :: s) = None).
    { rewrite form_split_match. now rewrite Hd. }
    rewrite E, IH by exact Hc. simpl. now rewrite <- app_assoc.
Qed.

(** The pieces of a list of keywords joined by a semicolon and a blank. *)
Lemma form_split_join rest :
  forall k p,
    Forall (Forall (fun c => is_separator c = false)) (k :: rest) ->
    split_from form_kw_split_re 0 (rev p) (join (py "; ") (k :: rest))
    = (p ++ k) :: List.map (fun x => ch " " :: x) rest.
Proof.
  induction rest as [|k2 rest IH]; intros k p H;
    inversion H as [|? ? Hk Hrest]; subst.
  - simpl join. rewrite (form_split_plain Hk). now rewrite rev_involutive.
  - replace (join (py "; ") (k :: k2 :: rest))
      with (k ++ ch ";" :: join (py "; ") ((ch " " :: k2) :: rest))
      by (destruct rest; reflexivity).
    rewrite (form_split_at_separator Hk) by reflexivity.
    rewrite rev_involutive. f_equal.
    inversion Hrest as [|? ? Hk2 Hrest']; subst.
    apply (IH (ch " " :: k2) []).
    constructor; [|exact Hrest']. now constructor.
Qed.

Lemma strip_leading_blank x : strip (ch " " :: x) = strip x.
Proof. reflexivity. Qed.

Lemma clean_leading_blanks rest :
  List.map strip
    (List.filter (fun k => truthy (strip k))
                 (List.map (fun x => ch " " :: x) rest))
  = List.map strip (List.filter (fun k => truthy (strip k)) rest).
Proof.
  induction rest as [|k rest IH]; [reflexivity|].
  cbn [List.map List.filter]. rewrite strip_leading_blank.
  destruct (truthy (strip k)); cbn [List.map];
    now rewrite IH, ?strip_leading_blank.
Qed.

Lemma form_keywords_of_join kws (form : form_data) :
  Forall (Forall (fun c => is_separator c = false)) kws ->
  form_get form (py "keywords") [] = join (py "; ") kws ->
  form_keywords form
  = List.map strip (List.filter (fun k => truthy (strip k)) kws).
Proof.
  intros Hk E. unfold form_keywords, re_split. rewrite E.
  destruct kws as [|k rest]; [reflexivity|].
  pose proof (@form_split_join rest k [] Hk) as Hs.
  cbn [rev app] in Hs. rewrite Hs.
  cbn [List.filter app]. destruct (truthy (strip k)); cbn [List.map];
    now rewrite clean_leading_blanks.
Qed.

(** The keywords survive the review: when the form sends back the guessed
    keywords, joined by a semicolon and a blank as [upload] shows them,
    [generate] reads the same keywords, each trimmed, without the ones that
    are blank. *)
Theorem guessed_keywords_round_trip (md_text : pystr) (form : form_data) :
  form_get form (py "keywords") []
  = join (py "; ") (md_keywords (parse_sections_from_markdown md_text)) ->
  form_keywords form
  = List.map strip
      (List.filter (fun k => truthy (strip k))
                   (md_keywords (parse_sections_from_markdown md_text))).
Proof.
  apply form_keywords_of_join. apply md_keywords_no_separator.
Qed.

Lemma guessed_keywords_round_trip_witness :
  form_keywords [(py "keywords", py "x; y; z")] = [py "x"; py "y"; py "z"].
Proof.
  apply (@guessed_keywords_round_trip
           (py "Index Terms - x and y, z") [(py "keywords", py "x; y; z")]).
  reflexivity.
Defined.

(** ** The Fallback Typesetter *)

(** The image of a line is never rewritten again: applying the line rule
    twice is applying it once. *)
Theorem naive_line_idempotent (line : pystr) :
  naive_line (naive_line line) = naive_line line.
Proof.
  assert (Hcmd : forall x, naive_line (BSL :: x) = BSL :: x)
    by reflexivity.
  assert (Hcase : naive_line line = line \/
                  exists x, naive_line line = BSL :: x).
  { unfold naive_line.
    destruct (startswith line (py "# ")); [right; eexists; reflexivity|].
    destruct (startswith line (py "## ")); [right; eexists; reflexivity|].
    destruct (startswith line (py "### ")); [right; eexists; reflexivity|].
    now left. }
  destruct Hcase as [E|(x & E)]; rewrite E; [exact E | apply Hcmd].
Qed.

Lemma join_In sep c ls :
  In c (join sep ls) -> In c sep \/ exists l, In l ls /\ In c l.
Proof.
  induction ls as [|l ls IH]; [intros []|].
  destruct ls as [|l' ls].
  - intros H. right. exists l. split; [now left | exact H].
  - change (join sep (l :: l' :: ls)) with (l ++ sep ++ join sep (l' :: ls)).
    intros H. apply in_app_or in H as [H|H].
    + right. exists l. split; [now left | exact H].
    + apply in_app_or in H as [H|H]; [now left|].
      destruct (IH H) as [H'|(x & Hx & Hc)]; [now left|].
      right. exists x. split; [now right | exact Hc].
Qed.

Lemma skipn_In (A : Type) n (l : list A) x : In x (skipn n l) -> In x l.
Proof.
  intros H. rewrite <- (firstn_skipn n l). apply in_or_app. now right.
Qed.

Lemma naive_line_no_break l :
  Forall (fun c => is_linebreak c = false) l ->
  Forall (fun c => is_linebreak c = false) (naive_line l).
Proof.
  intros H.
  assert (Hs : forall n, Forall (fun c => is_linebreak c = false) (skipn n l)).
  { intros n. apply Forall_forall. intros c Hc. apply skipn_In in Hc.
    revert c Hc. now apply Forall_forall. }
  unfold naive_line.
  destruct (startswith l (py "# "));
    [|destruct (startswith l (py "## "));
      [|destruct (startswith l (py "### ")); [|exact H]]];
    (apply Forall_app; split; [repeat constructor|]);
    (apply Forall_app; split; [apply Hs | repeat constructor]).
Qed.

(** The Fallback Typesetter normalises line ends: whatever line boundaries
    the input uses, the only boundary character of the output is the
    newline. *)
Theorem naive_md_to_latex_line_ends (text : pystr) :
  Forall (fun c => is_linebreak c = false \/ c = NL) (naive_md_to_latex text).
Proof.
  unfold naive_md_to_latex. rewrite naive_loop_map.
  apply Forall_forall. intros c Hc.
  apply join_In in Hc as [[<-|[]]|(l & Hl & Hc)]; [now right|]. left.
  apply in_map_iff in Hl as (l0 & <- & Hl0).
  pose proof (splitlines_no_break text) as Hs.
  rewrite Forall_forall in Hs. specialize (Hs _ Hl0).
  apply naive_line_no_break in Hs. rewrite Forall_forall in Hs. now apply Hs.
Qed.

(** ** The converter lookup *)




(** ** Generation and upload *)



Lemma sanitizer_fixed_point t :
  strip_abstract_keywords_from_latex (strip_abstract_keywords_from_latex t)
  = strip_abstract_keywords_from_latex t.
Proof.
  destruct (sanitizer_match_free t) as [FA FK].
  unfold strip_abstract_keywords_from_latex at 1.
  rewrite (sub_match_free FA). apply (sub_match_free FK).
Qed.

Lemma author_row_trimmed form i :
  let a := author_row form i in
  strip (name a) = name a /\ strip (affiliation a) = affiliation a /\
  strip (organization a) = organization a /\
  strip (city_country a) = city_country a /\
  strip (email_or_orcid a) = email_or_orcid a.
Proof.
  unfold author_row; cbn [name affiliation organization city_country
                          email_or_orcid].
  repeat split; apply strip_idempotent.
Qed.

(** What [generate] has handed to the template, whenever the manuscript
    gets rendered: a title that is trimmed and never empty, a trimmed
    abstract, a body on which the sanitizer has nothing left to do, the
    bibliography name refs, author records with trimmed fields, as many as
    the rows field says, and none at all when that number is zero or
    negative. *)
Theorem generate_context_invariants (h : host) (ip : interpreter)
    (form : form_data) (j : job) (ctx : render_context) (tex : pystr) :
  generate h ip form j = Gen_paper ctx tex ->
  render_template h ctx = Returned tex /\
  ctx_title ctx <> [] /\ strip (ctx_title ctx) = ctx_title ctx /\
  strip (ctx_abstract ctx) = ctx_abstract ctx /\
  strip_abstract_keywords_from_latex (ctx_body_latex ctx) = ctx_body_latex ctx /\
  ctx_bibfile_base ctx = py "refs" /\
  Forall (fun a => strip (name a) = name a /\
                   strip (affiliation a) = affiliation a /\
                   strip (organization a) = organization a /\
                   strip (city_country a) = city_country a /\
                   strip (email_or_orcid a) = email_or_orcid a)
         (ctx_author_blocks ctx) /\
  exists rows,
    py_int ip (form_get form (py "author_rows") (py "1")) = Some rows /\
    List.length (ctx_author_blocks ctx) = Z.to_nat rows /\
    ((rows <= 0)%Z -> ctx_author_blocks ctx = []).
Proof.
  unfold generate.
  destruct (py_int ip (form_get form (py "author_rows") (py "1")))
    as [rows|]; [|discriminate].
  destruct (out_dir_exists j); cbn [negb]; [|discriminate].
  destruct (session_body_md j) as [nm|]; [|discriminate].
  destruct (read_text j nm) as [body|]; [|discriminate].
  destruct (markdown_to_latex h body) as [latex|]; [|discriminate].
  destruct (render_template h _) as [paper|] eqn:Er; [|discriminate].
  intros H. injection H as <- <-.
  cbn [ctx_title ctx_abstract ctx_body_latex ctx_bibfile_base
       ctx_author_blocks].
  split; [exact Er|]. clear Er.
  split; [|split; [|split; [|split; [|split; [|split]]]]].
  - unfold py_or. destruct (strip (form_get form (py "title") []));
      discriminate.
  - unfold py_or.
    destruct (truthy (strip (form_get form (py "title") [])));
      [apply strip_idempotent | reflexivity].
  - apply strip_idempotent.
  - apply sanitizer_fixed_point.
  - reflexivity.
  - unfold author_rows. apply Forall_forall. intros a Ha.
    apply in_map_iff in Ha as (i & <- & _). apply author_row_trimmed.
  - exists rows. split; [reflexivity|]. unfold author_rows. split.
    + now rewrite length_map, length_seq.
    + intros Hr. replace (Z.to_nat rows) with 0%nat by lia. reflexivity.
Qed.

Lemma generate_context_invariants_witness :
  exists ctx,
    generate bare_host python_3_11
             [(py "author_rows", py "-3"); (py "title", py "  ")]
             (stored_job (py "# T"))
    = Gen_paper ctx (py "\title{Untitled}") /\
    ctx_author_blocks ctx = [] /\ ctx_title ctx <> [].
Proof.
  eexists. split; [reflexivity|].
  destruct (@generate_context_invariants bare_host python_3_11
              [(py "author_rows", py "-3"); (py "title", py "  ")]
              (stored_job (py "# T")) _ _ eq_refl)
    as (_ & Ht & _ & _ & _ & _ & _ & rows & Er & _ & Hz).
  split; [|exact Ht]. apply Hz.
  vm_compute in Er. injection Er as <-. discriminate.
Defined.

Lemma map_seq_nth (A : Type) (f : nat -> A) (l : list A) :
  forall start,
    (forall i a, nth_error l i = Some a -> f (start + i)%nat = a) ->
    List.map f (seq start (List.length l)) = l.
Proof.
  induction l as [|x l IH]; intros start H; [reflexivity|].
  simpl. f_equal.
  - rewrite <- (Nat.add_0_r start). now apply H.
  - apply IH. intros i a Hi.
    replace (S start + i)%nat with (start + S i)%nat by lia. now apply H.
Qed.

(** [upload] wants pandoc on the search path: without it the upload is
    turned away with the message that Pandoc is required, also on a host
    where [find_pandoc] would locate a converter through a variable or a
    well-known location. *)
Theorem upload_needs_pandoc_on_path (h : host) (docx_path media_dir : pystr) :
  match which h (py "pandoc") with Some w => truthy w | None => false end
  = false ->
  upload h docx_path media_dir
  = Upload_redirect
      (Some (py "Pandoc is required to convert DOCX. Please install Pandoc.")).
Proof.
  unfold upload, docx_to_markdown.
  destruct (which h (py "pandoc")) as [w|]; [|reflexivity].
  now intros ->.
Qed.

Lemma upload_needs_pandoc_on_path_witness :
  find_pandoc override_host = Some (py "/opt/pandoc") /\
  upload override_host (py "paper.docx") (py "media")
  = Upload_redirect
      (Some (py "Pandoc is required to convert DOCX. Please install Pandoc.")).
Proof.
  split; [reflexivity|].
  apply upload_needs_pandoc_on_path. reflexivity.
Defined.

(** A review page means a clean conversion: [upload] stores markup and
    shows the review page only if pandoc is on the search path and the
    document converter exited with status 0, and what it stores is the
    converter's output.  The body preview has at most 2000 characters. *)
Theorem upload_review_conditions (h : host) (docx_path media_dir md_text : pystr)
    (page : review_page) :
  upload h docx_path media_dir = Upload_review md_text page ->
  (exists w err,
     which h (py "pandoc") = Some w /\ truthy w = true /\
     run_process h
       [py "pandoc"; docx_path; py "-t"; py "gfm"; py "--extract-media";
        media_dir] []
     = Completed 0 md_text err) /\
  (List.length (body_preview page) <= 2000)%nat.
Proof.
  unfold upload, docx_to_markdown.
  destruct (which h (py "pandoc")) as [w|]; [|discriminate].
  destruct (truthy w) eqn:Hw; [|discriminate]. cbn [negb].
  destruct (run_process h _ []) as [|rc out err] eqn:Er; [discriminate|].
  destruct (Z.eqb_spec rc 0) as [->|]; [|discriminate]. cbn [negb].
  destruct (markdown_to_latex h out) as [latex|]; [|discriminate].
  intros H.
  assert (Hm : out = md_text) by (now injection H).
  assert (Hp : body_preview page
               = firstn 2000 (strip_abstract_keywords_from_latex latex))
    by (injection H as _ <-; reflexivity).
  split.
  - exists w, err. now rewrite <- Hm.
  - rewrite Hp. apply firstn_le_length.
Qed.

Lemma upload_review_conditions_witness :
  exists page,
    upload working_host (py "paper.docx") (py "media")
    = Upload_review sample_markup page /\
    (List.length (body_preview page) <= 2000)%nat.
Proof.
  eexists. split; [reflexivity|].
  apply (proj2 (@upload_review_conditions working_host (py "paper.docx")
                  (py "media") sample_markup _ eq_refl)).
Defined.

Lemma upload_review_inj m p m' p' :
  Upload_review m p = Upload_review m' p' -> m = m' /\ p = p'.
Proof. intros H. now injection H. Qed.

Lemma upload_review_inv h docx_path media_dir md_text page :
  upload h docx_path media_dir = Upload_review md_text page ->
  exists latex,
    markdown_to_latex h md_text = Returned latex /\
    page = Build_review
             (md_title (parse_sections_from_markdown md_text))
             (md_abstract (parse_sections_from_markdown md_text))
             (join (py "; ") (md_keywords (parse_sections_from_markdown md_text)))
             (split_authors_blocks
                (md_authors_raw (parse_sections_from_markdown md_text)))
             (firstn 2000 (strip_abstract_keywords_from_latex latex)).
Proof.
  unfold upload. destruct (docx_to_markdown h docx_path media_dir) as [md| |];
    try discriminate.
  destruct (markdown_to_latex h md) as [latex|] eqn:E; [|discriminate].
  intros H. apply upload_review_inj in H as [<- <-]. now exists latex.
Qed.

Lemma find_title_trimmed lines : strip (find_title lines) = find_title lines.
Proof.
  induction lines as [|l lines IH]; simpl; [reflexivity|].
  destruct (startswith l (py "# ")); [apply strip_idempotent | exact IH].
Qed.

(** Sending the review page back unchanged reproduces the guesses: when the
    form carries the guessed title, abstract and keywords, a rows field
    that [int] reads as the number of author records and, row by row, their
    fields, and the job directory gives back the markup that [upload]
    converted, [generate] hands to the template a context with the guessed
    title (Untitled if there was none), the guessed abstract, the guessed
    keywords (trimmed, without the blank ones) and the same author records;
    and the body shown in the preview is the beginning of the body of the
    manuscript. *)
Theorem review_round_trip (h : host) (ip : interpreter)
    (docx_path media_dir md_text : pystr) (page : review_page)
    (form : form_data) (j : job) (body_name : pystr) :
  upload h docx_path media_dir = Upload_review md_text page ->
  form_get form (py "title") [] = guessed_title page ->
  form_get form (py "abstract") [] = guessed_abstract page ->
  form_get form (py "keywords") [] = guessed_keywords page ->
  py_int ip (form_get form (py "author_rows") (py "1"))
  = Some (Z.of_nat (List.length (review_authors page))) ->
  (forall i a,
     nth_error (review_authors page) i = Some a ->
     form_get form (author_key i (py "name")) [] = name a /\
     form_get form (author_key i (py "affiliation")) [] = affiliation a /\
     form_get form (author_key i (py "organization")) [] = organization a /\
     form_get form (author_key i (py "city_country")) [] = city_country a /\
     form_get form (author_key i (py "email")) [] = email_or_orcid a) ->
  out_dir_exists j = true ->
  session_body_md j = Returned body_name ->
  read_text j body_name = Returned md_text ->
  exists ctx,
    generate h ip form j
    = match render_template h ctx with
      | Returned paper_tex => Gen_paper ctx paper_tex
      | Raised => Gen_raised
      end /\
    ctx_title ctx = py_or (guessed_title page) (py "Untitled") /\
    ctx_abstract ctx = guessed_abstract page /\
    ctx_keywords ctx
    = List.map strip
        (List.filter (fun k => truthy (strip k))
           (md_keywords (parse_sections_from_markdown md_text))) /\
    ctx_author_blocks ctx = review_authors page /\
    body_preview page = firstn 2000 (ctx_body_latex ctx).
Proof.
  intros Hup Ht Ha Hk Hrows Hfields Hdir Hsession Hread.
  apply upload_review_inv in Hup as (latex & Hl & ->).
  cbn [guessed_title guessed_abstract guessed_keywords review_authors
       body_preview] in *.
  unfold generate. rewrite Hrows, Hdir, Hsession, Hread, Hl, Ht, Ha.
  cbn [negb].
  eexists. split; [reflexivity|].
  cbn [ctx_title ctx_abstract ctx_keywords ctx_author_blocks ctx_body_latex].
  split; [|split; [|split; [|split]]].
  - unfold parse_sections_from_markdown; cbn [md_title].
    now rewrite find_title_trimmed.
  - unfold parse_sections_from_markdown; cbn [md_abstract].
    apply strip_idempotent.
  - exact (@form_keywords_of_join _ form (md_keywords_no_separator md_text) Hk).
  - unfold author_rows. rewrite Nat2Z.id. apply map_seq_nth.
    intros i a Hi. simpl Nat.add.
    destruct (Hfields i a Hi) as (F1 & F2 & F3 & F4 & F5).
    pose proof (split_authors_blocks_parsed
                  (md_authors_raw (parse_sections_from_markdown md_text)))
      as Hp.
    rewrite Forall_forall in Hp. specialize (Hp a (nth_error_In _ _ Hi)).
    destruct Hp as (P1 & P2 & _ & P4 & P5 & P6 & _).
    unfold author_row, author_key in *. cbv zeta.
    destruct a as [nm af og cc em].
    cbn [name affiliation organization city_country email_or_orcid] in *.
    rewrite F1, F2, F3, F4, F5, P4, P5, P6, P1, P2. reflexivity.
  - reflexivity.
Qed.

Lemma review_round_trip_witness :
  exists ctx,
    generate working_host python_3_11
      [(py "title", py "My Title"); (py "abstract", py "This is it.");
       (py "keywords", py "x; y"); (py "author_rows", py "1");
       (py "author_0_name", py "Jane Doe");
       (py "author_0_affiliation", py "Jane Doe, MIT Lab")]
      (stored_job sample_markup)
    = match render_template working_host ctx with
      | Returned paper_tex => Gen_paper ctx paper_tex
      | Raised => Gen_raised
      end /\
    ctx_title ctx = py "My Title" /\
    ctx_author_blocks ctx
    = [Build_author (py "Jane Doe") (py "Jane Doe, MIT Lab") [] [] []].
Proof.
  destruct (@review_round_trip working_host python_3_11
              (py "paper.docx") (py "media") sample_markup _
              [(py "title", py "My Title"); (py "abstract", py "This is it.");
               (py "keywords", py "x; y"); (py "author_rows", py "1");
               (py "author_0_name", py "Jane Doe");
               (py "author_0_affiliation", py "Jane Doe, MIT Lab")]
              (stored_job sample_markup) (py "body.md")
              eq_refl eq_refl eq_refl eq_refl eq_refl)
    as (ctx & E & Ht & _ & _ & Hau & _).
  - intros i a Hi. destruct i as [|i].
    + injection Hi as <-. repeat split.
    + destruct i; discriminate.
  - reflexivity.
  - reflexivity.
  - reflexivity.
  - exists ctx. split; [exact E|]. split; [exact Ht | exact Hau].
Defined.

(** ** The diagnostic page *)

(** The search path shown by [diag] has at most 503 characters, and a path
    of at most 500 characters is shown whole. *)
Theorem diag_path_bounded (h : host) :
  (List.length (diag_PATH (diag h)) <= 503)%nat /\
  (forall path,
     environ_get h (py "PATH") = Some path ->
     (List.length path <= 500)%nat ->
     diag_PATH (diag h) = path).
Proof.
  unfold diag; cbn [diag_PATH]. split.
  - rewrite length_app. apply (Nat.add_le_mono _ 500 _ 3).
    + apply firstn_le_length.
    + destruct (500 <? _)%nat; simpl; lia.
  - intros path -> Hl. rewrite firstn_all2 by exact Hl.
    apply Nat.ltb_ge in Hl. rewrite Hl. apply app_nil_r.
Qed.

Lemma diag_path_bounded_witness :
  diag_PATH
    (diag (Build_host (fun _ => Some (py "/usr/bin:/bin")) (fun _ => false)
             (fun p => p) (fun _ => None) false (fun p => p) (fun p => p)
             (fun _ _ => Run_raised) (fun c => Returned (ctx_title c))))
  = py "/usr/bin:/bin".
Proof.
  apply (proj2 (diag_path_bounded _) (py "/usr/bin:/bin")).
  - reflexivity.
  - simpl. lia.
Defined.
